(** * MDPPEnv: the multiple decap placement environment (rl4co/envs/mdpp.py)

    A shallow embedding of [MDPPEnv]: construction, instance generation,
    reset masking and the multi-probe reward, followed by the properties
    of the specification that concern them.

    Conventions of the embedding.
    - A boolean tensor of shape (N,) is a [list bool]; an index is a [Z]
      (index tensors are int64), a count of cells a [nat].
    - A batched TensorDict is the list of its instances; the progress
      fields of the parent class (first_node, current_node, i) are neither
      read nor written by this module and are left out of [Instance].
    - Python exceptions are values of [exn]; a computation that may raise
      returns [result].
    - Random draws are inputs: [randint] reduces a raw random word into
      its range the way the sampler does, a permutation drawn by
      [torch.randperm] is a list constrained by [is_randperm].
    - A simulator score is a rational; the parent's simulator is a field
      of [DPPEnv]. A location is the rational that its float32 value is. *)

From Stdlib Require Import ZArith QArith Qminmax Qround Lia.
From stdpp Require Import base list strings sets.

(** ** Exceptions and the error monad *)

(** The exceptions of this module and of torch, and [BaseError] for
    whatever the parent class raises. *)
Inductive exn : Type :=
| AssertionError (msg : string)
| TypeError
| IndexError
| RuntimeError
| BaseError (msg : string).

Inductive result (A : Type) : Type :=
| Ok (a : A)
| Raise (e : exn).

Arguments Ok {A} a.
Arguments Raise {A} e.

#[global] Instance result_ret : MRet result := fun A a => Ok a.

#[global] Instance result_bind : MBind result := fun A B k m =>
  match m with
  | Ok a => k a
  | Raise e => Raise e
  end.

Definition raises {A : Type} (m : result A) : Prop := ∃ e, m = Raise e.
Definition returns {A : Type} (m : result A) : Prop := ∃ a, m = Ok a.

(** [[f x for x in l]], stopping at the first exception. *)
Fixpoint for_each {A B : Type} (f : A → result B) (l : list A) : result (list B) :=
  match l with
  | [] => Ok []
  | x :: l' =>
      y ← f x;
      ys ← for_each f l';
      Ok (y :: ys)
  end.

(** ** int64 tensors of dimension 0 and 1

    [torch.nonzero] returns an int64 tensor and [torch.zeros_like] keeps the
    dtype of its argument, so every tensor that [_single_env_reward] builds
    is an int64 tensor: of shape () ([Long0]) or of shape (k,) ([Long1]). *)

Inductive LongTensor : Type :=
| Long0 (z : Z)
| Long1 (zs : list Z).

(** [torch.nonzero(mask)] for a mask of shape (N,): the indices of the true
    cells in increasing order; the tensor has shape (k, 1), one row per
    index, and the list holds its single column. *)
Fixpoint nonzero_from (c : Z) (mask : list bool) : list Z :=
  match mask with
  | [] => []
  | b :: mask' =>
      if b then c :: nonzero_from (c + 1) mask' else nonzero_from (c + 1) mask'
  end.

Definition nonzero (mask : list bool) : list Z := nonzero_from 0 mask.

(** The number of true cells of a mask. *)
Definition count_true (mask : list bool) : nat := length (filter Is_true mask).

(** [.squeeze()] of a tensor of shape (k, 1): every dimension of size 1 is
    removed, so the column dimension always goes and the row dimension
    goes too when k = 1, which leaves a tensor of shape (). *)
Definition squeeze (column : list Z) : LongTensor :=
  match column with
  | [z] => Long0 z
  | _ => Long1 column
  end.

Definition zeros_like (t : LongTensor) : LongTensor :=
  match t with
  | Long0 _ => Long0 0
  | Long1 zs => Long1 (replicate (length zs) 0%Z)
  end.

(** Iterating over a tensor yields its rows; a tensor of shape () has none
    to yield and the iteration raises TypeError. *)
Definition iter (t : LongTensor) : result (list Z) :=
  match t with
  | Long0 _ => Raise TypeError
  | Long1 zs => Ok zs
  end.

Definition enumerate {A : Type} (l : list A) : list (nat * A) :=
  zip (seq 0 (length l)) l.

(** Truncation toward zero. *)
Definition Qtrunc (q : Q) : Z := Z.quot (Qnum q) (Zpos (Qden q)).

(** Storing a real into an int64 tensor converts it by truncation toward
    zero; a real whose truncation is outside the range of int64 is stored
    as the least int64, which is what the conversion instruction of the
    processor yields. *)
Definition to_int64 (q : Q) : Z :=
  let z := Qtrunc q in
  if decide (- 2 ^ 63 ≤ z < 2 ^ 63)%Z then z else (- 2 ^ 63)%Z.

(** [t[i] = v] for a real [v] and an index [i] that is not negative. *)
Definition setitem (t : LongTensor) (i : nat) (v : Q) : result LongTensor :=
  match t with
  | Long0 _ => Raise IndexError
  | Long1 zs =>
      if decide (i < length zs) then Ok (Long1 (<[i := to_int64 v]> zs))
      else Raise IndexError
  end.

Definition list_min (z : Z) (zs : list Z) : Z := foldl Z.min z zs.

(** [t.min()]: the least element, as a tensor of shape () of the same
    dtype; it raises on a tensor without elements. *)
Definition tensor_min (t : LongTensor) : result LongTensor :=
  match t with
  | Long0 z => Ok (Long0 z)
  | Long1 [] => Raise RuntimeError
  | Long1 (z :: zs) => Ok (Long0 (list_min z zs))
  end.

(** [t.mean()]: torch computes a mean for floating point and complex dtypes
    only; on an int64 tensor it raises RuntimeError, whatever the shape. *)
Definition tensor_mean (t : LongTensor) : result LongTensor :=
  match t with
  | Long0 _ | Long1 _ => Raise RuntimeError
  end.

(** [torch.stack] of tensors of shape (): a tensor of shape (B,); it raises
    on an empty list and on a list that mixes shapes. *)
Definition stack (ts : list LongTensor) : result LongTensor :=
  match ts with
  | [] => Raise RuntimeError
  | _ =>
      zs ← for_each (fun t => match t with
                              | Long0 z => Ok z
                              | Long1 _ => Raise RuntimeError
                              end) ts;
      Ok (Long1 zs)
  end.

(** The numeric value of a tensor of shape (). *)
Definition item (t : LongTensor) : option Q :=
  match t with
  | Long0 z => Some (inject_Z z)
  | Long1 _ => None
  end.

(** ** The environment *)

(** The members of the parent class [DPPEnv] that this module uses. *)
Record DPPEnv : Type := mkDPPEnv {
  size : nat;
  num_keepout_min : Z;
  num_keepout_max : Z;
  _decap_simulator : Z → list Z → Q
}.

Record MDPPEnv : Type := mkMDPPEnv {
  super : DPPEnv;
  num_probes_min : Z;
  num_probes_max : Z;
  reward_type : string
}.

Record Instance : Type := mkInstance {
  locs : list (Q * Q);
  probe : list bool;
  action_mask : list bool
}.

(** A TensorDict with batch_size [[]] or [[B]]. *)
Inductive TensorDict : Type :=
| Single (td : Instance)
| Batch (tds : list Instance).

(** [MDPPEnv.__init__]: [super_init] is the outcome of the parent's
    constructor on the remaining keyword arguments, which runs first. The
    schema declarations of [_make_spec] carry no behaviour and are not
    embedded. *)
Definition __init__ (super_init : result DPPEnv)
    (num_probes_min num_probes_max : Z) (reward_type : string) : result MDPPEnv :=
  base ← super_init;
  if bool_decide (reward_type ∈ ["minmax"; "meansum"]) then
    Ok (mkMDPPEnv base num_probes_min num_probes_max reward_type)
  else Raise (AssertionError "reward_type must be minmax or meansum").

(** ** Reward *)

(** The loop [for i, probe in enumerate(list_probe): scores[i] = ...]. *)
Fixpoint fill_scores (sim : Z → Q) (items : list (nat * Z)) (scores : LongTensor)
    : result LongTensor :=
  match items with
  | [] => Ok scores
  | (i, probe) :: items' =>
      scores' ← setitem scores i (sim probe);
      fill_scores sim items' scores'
  end.

Definition _single_env_reward (self : MDPPEnv) (td : Instance) (actions : list Z)
    : result LongTensor :=
  let list_probe := squeeze (nonzero (probe td)) in
  let scores := zeros_like list_probe in
  rows ← iter list_probe;
  scores ← fill_scores (fun probe => _decap_simulator (super self) probe actions)
             (enumerate rows) scores;
  if bool_decide (reward_type self = "minmax") then tensor_min scores
  else tensor_mean scores.

(** The two calling conventions of [get_reward]: a single instance with its
    placement sequence, or a batch of instances with one sequence each
    (the actions carry the batch dimension of the TensorDict). *)
Inductive RewardCall : Type :=
| Unbatched (td : Instance) (actions : list Z)
| Batched (tds : list Instance) (actions : list (list Z)).

Definition get_reward (self : MDPPEnv) (call : RewardCall) : result LongTensor :=
  let '(td, actions) :=
    match call with
    | Unbatched td actions => ([td], [actions])      (* unsqueeze(0) on both *)
    | Batched tds actions => (tds, actions)
    end in
  rewards ← for_each (fun '(td_single, action) => _single_env_reward self td_single action)
              (zip td actions);
  stack rewards.

(** ** Reset *)

(** [torch.logical_or] on tensors of shape (N,) and (N',): elementwise,
    a tensor with one element being broadcast. *)
Definition logical_or (a b : list bool) : result (list bool) :=
  if decide (length a = length b) then Ok (zip_with orb a b)
  else match a, b with
       | [x], _ => Ok (orb x <$> b)
       | _, [y] => Ok ((fun x => orb x y) <$> a)
       | _, _ => Raise RuntimeError
       end.

Definition reset_mask (td_reset : Instance) : result Instance :=
  action_mask ← logical_or (action_mask td_reset) (probe td_reset);
  Ok (mkInstance (locs td_reset) (probe td_reset) action_mask).

(** [MDPPEnv._reset]: [super_reset] is the parent's [_reset], called first;
    the mask of its result is then replaced, row by row. *)
Definition _reset (super_reset : option TensorDict → result TensorDict)
    (td : option TensorDict) : result TensorDict :=
  td_reset ← super_reset td;
  match td_reset with
  | Single x => x' ← reset_mask x; Ok (Single x')
  | Batch xs => xs' ← for_each reset_mask xs; Ok (Batch xs')
  end.

(** ** Instance generation *)

(** The random draws behind one instance, in the order of the source: the
    raw word of the designated probe, the raw word of the number of probes,
    the permutation for the probe set, the raw word of the number of
    keepouts, the permutation for the keepouts. *)
Record Draws : Type := mkDraws {
  u_probe : Z;
  u_num_probe : Z;
  perm_probe : list Z;
  u_num_keepout : Z;
  perm_keepout : list Z
}.

(** What [torch.randperm(N)] can return. *)
Definition is_randperm (N : nat) (perm : list Z) : Prop :=
  perm ≡ₚ seqZ 0 (Z.of_nat N).

Definition valid_draws (N : nat) (r : Draws) : Prop :=
  is_randperm N (perm_probe r) ∧ is_randperm N (perm_keepout r).

(** [torch.randint(low, high, size)]: one integer of [low, high) per raw
    random word; an empty range raises, whatever the size. *)
Definition randint (low high : Z) (us : list Z) : result (list Z) :=
  if decide (low < high)%Z
  then Ok ((fun u => (low + u `mod` (high - low))%Z) <$> us)
  else Raise RuntimeError.

(** [perm[:stop]] with Python's reading of a negative [stop]. *)
Definition slice_to {A : Type} (l : list A) (stop : Z) : list A :=
  if decide (0 ≤ stop)%Z then take (Z.to_nat stop) l
  else take (length l - Z.to_nat (- stop)) l.

(** [src.scatter(0, index, value)] on a tensor of shape (N,): an index
    outside [0, N) raises. *)
Definition scatter_value (src : list bool) (index : list Z) (value : bool)
    : list bool :=
  foldl (fun acc j => <[Z.to_nat j := value]> acc) src index.

Definition scatter (src : list bool) (index : list Z) (value : bool)
    : result (list bool) :=
  if forallb (fun j => bool_decide (0 ≤ j < Z.of_nat (length src))%Z) index
  then Ok (scatter_value src index value)
  else Raise RuntimeError.

(** *** float32

    The locations are float32 values: the indices, which are int64, are
    converted to float32 and divided by the float32 values of [m] and [n].
    Conversion and division round to the nearest float32, ties to even,
    with 24 significant bits; the values are kept as the rationals they
    are. Grid indices stay far below the largest float32 and their
    quotients far above the least normal one, so neither overflow nor
    gradual underflow is modelled. *)

(** The integer nearest to [a / b], for [b > 0], ties to even. *)
Definition round_half_even (a b : Z) : Z :=
  let d := (a / b)%Z in
  let r := (a mod b)%Z in
  if (2 * r <? b)%Z then d
  else if (b <? 2 * r)%Z then (d + 1)%Z
  else if Z.even d then d else (d + 1)%Z.

(** The float32 nearest to the integer [i]; it is an integer. *)
Definition float32_of_int (i : Z) : Z :=
  let t := Z.max 0 (Z.log2 (Z.abs i) - 23) in
  (Z.sgn i * (round_half_even (Z.abs i) (2 ^ t) * 2 ^ t))%Z.

(** The exponent [e] with [2 ^ e ≤ a / b < 2 ^ (e + 1)], for [a, b > 0]. *)
Definition binade (a b : Z) : Z :=
  let e := (Z.log2 a - Z.log2 b)%Z in
  if (a * 2 ^ Z.max 0 (- e) <? b * 2 ^ Z.max 0 e)%Z then (e - 1)%Z else e.

(** The float32 quotient [a / b] of two float32 values that are integers,
    for [a ≥ 0] and [b > 0], as the operands of the grid are. *)
Definition float32_div (a b : Z) : Q :=
  if decide (0 < a ∧ 0 < b)%Z then
    let s := (23 - binade a b)%Z in
    let M := round_half_even (a * 2 ^ Z.max 0 s) (b * 2 ^ Z.max 0 (- s)) in
    Qred (Qmake (M * 2 ^ Z.max 0 (- s)) (Z.to_pos (2 ^ Z.max 0 s)))
  else 0%Q.

(** The meshgrid of rows and columns, reshaped to (m * n, 2) and divided,
    in float32, by (m, n). *)
Definition grid_locs (m n : nat) : list (Q * Q) :=
  i ← seq 0 m;
  j ← seq 0 n;
  [(float32_div (float32_of_int (Z.of_nat i)) (float32_of_int (Z.of_nat m)),
    float32_div (float32_of_int (Z.of_nat j)) (float32_of_int (Z.of_nat n)))].

(** The argument [batch_size]: an int, the empty shape or a shape of one
    dimension. *)
Inductive BatchSize : Type :=
| BInt (b : nat)
| BShape0
| BShape1 (b : nat).

Definition generate_data (self : MDPPEnv) (batch_size : BatchSize) (rng : nat → Draws)
    : result TensorDict :=
  let m := size (super self) in
  let n := size (super self) in
  let batched := match batch_size with BShape0 => false | _ => true end in
  let bs := match batch_size with BShape0 => 1 | BInt b | BShape1 b => b end in
  let r := rng <$> seq 0 bs in
  let locs := grid_locs m n in
  (* Create available mask *)
  let available := replicate bs (replicate (m * n) true) in
  (* Sample probe location from m*n *)
  probe ← randint 0 (Z.of_nat (m * n)) (u_probe <$> r);
  available ← for_each (fun '(a, p) => scatter a [p] false) (zip available probe);
  (* Sample probe locations *)
  num_probe ← randint (num_probes_min self) (num_probes_max self) (u_num_probe <$> r);
  let probe := zip_with slice_to (perm_probe <$> r) num_probe in
  let probes := replicate bs (replicate (m * n) false) in
  rows ← for_each (fun '(a, ps, p) =>
                     a' ← scatter a p false;
                     ps' ← scatter ps p true;
                     Ok (a', ps'))
           (zip (zip available probes) probe);
  let available := rows.*1 in
  let probes := rows.*2 in
  (* Sample keepout locations *)
  num_keepout ← randint (num_keepout_min (super self)) (num_keepout_max (super self))
                  (u_num_keepout <$> r);
  let keepouts := zip_with slice_to (perm_keepout <$> r) num_keepout in
  available ← for_each (fun '(a, k) => scatter a k false) (zip available keepouts);
  let tds := zip_with (mkInstance locs) probes available in
  match batched, tds with
  | false, [td] => Ok (Single td)                     (* squeeze(0) *)
  | _, _ => Ok (Batch tds)
  end.

(** *** The local variables of [generate_data], for one instance

    The values that the generator computes for the instance with draws
    [r], when no step raises. *)

Definition num_cells (self : MDPPEnv) : nat := size (super self) * size (super self).

Definition designated_probe (self : MDPPEnv) (r : Draws) : Z :=
  (0 + u_probe r `mod` (Z.of_nat (num_cells self) - 0))%Z.

Definition num_probe (self : MDPPEnv) (r : Draws) : Z :=
  (num_probes_min self
   + u_num_probe r `mod` (num_probes_max self - num_probes_min self))%Z.

Definition probe_cells (self : MDPPEnv) (r : Draws) : list Z :=
  slice_to (perm_probe r) (num_probe self r).

Definition num_keepout (self : MDPPEnv) (r : Draws) : Z :=
  (num_keepout_min (super self)
   + u_num_keepout r
     `mod` (num_keepout_max (super self) - num_keepout_min (super self)))%Z.

Definition keepout_cells (self : MDPPEnv) (r : Draws) : list Z :=
  slice_to (perm_keepout r) (num_keepout self r).

Definition instance_of (self : MDPPEnv) (r : Draws) : Instance :=
  let N := num_cells self in
  mkInstance (grid_locs (size (super self)) (size (super self)))
    (scatter_value (replicate N false) (probe_cells self r) true)
    (scatter_value
       (scatter_value
          (scatter_value (replicate N true) [designated_probe self r] false)
          (probe_cells self r) false)
       (keepout_cells self r) false).

Definition batch_length (batch_size : BatchSize) : nat :=
  match batch_size with BShape0 => 1 | BInt b | BShape1 b => b end.

Definition pack (batch_size : BatchSize) (tds : list Instance) : TensorDict :=
  match batch_size, tds with
  | BShape0, [td] => Single td
  | _, _ => Batch tds
  end.

Definition instances (td : TensorDict) : list Instance :=
  match td with
  | Single x => [x]
  | Batch xs => xs
  end.

(** The sampler ranges are not empty. *)
Definition valid_config (self : MDPPEnv) : Prop :=
  0 < size (super self)
  ∧ (num_probes_min self < num_probes_max self)%Z
  ∧ (num_keepout_min (super self) < num_keepout_max (super self))%Z.

(** Modelled from the spec: [DPPEnv._reset], the parent's reset, is not
    among the sources. The spec has it populate the fields of the initial
    state and hand on the mask of the base class, which reflects the
    keepouts and the cells already placed, none at reset: a given initial
    state is handed on as it is, and a missing one is generated. *)
Definition DPPEnv_reset (generate : result TensorDict) (td : option TensorDict)
    : result TensorDict :=
  match td with
  | Some td => Ok td
  | None => generate
  end.

(** ** The aggregation as the spec words it *)

Definition Qlist_min (q : Q) (qs : list Q) : Q := foldl Qmin q qs.

Definition Qlist_mean (qs : list Q) : Q :=
  (foldr Qplus 0 qs / inject_Z (Z.of_nat (length qs)))%Q.

(** The reward the spec describes for the per-probe scores [qs]: their
    minimum under "minmax", their mean under "meansum". *)
Definition aggregate_spec (reward_type : string) (qs : list Q) : option Q :=
  match qs with
  | [] => None
  | q :: qs' =>
      if bool_decide (reward_type = "minmax") then Some (Qlist_min q qs')
      else Some (Qlist_mean qs)
  end.


(** ** The scenario of the specification

    A grid of size 3 (N = 9) with two to three (exclusive) probes and the
    keepout range [0, 1); a simulator that scores 0.4 at probe cell 0 and
    0.9 at every other probe cell. *)

Definition example_simulator (probe : Z) (actions : list Z) : Q :=
  if decide (probe = 0)%Z then (4 # 10)%Q else (9 # 10)%Q.

Definition example_env (reward_type : string) : MDPPEnv :=
  mkMDPPEnv (mkDPPEnv 3 0 1 example_simulator) 2 3 reward_type.

(** Draws that designate cell 8 and take both permutations as the
    identity. *)
Definition example_draws : Draws :=
  mkDraws 8 0 [0; 1; 2; 3; 4; 5; 6; 7; 8]%Z 0 [0; 1; 2; 3; 4; 5; 6; 7; 8]%Z.

(** The instance that [example_env] generates from [example_draws]:
    probes at cells 0 and 1. *)
Definition example_instance : Instance :=
  mkInstance (grid_locs 3 3)
    [true; true; false; false; false; false; false; false; false]
    [false; false; true; true; true; true; true; true; false].

(** An instance with a single probe, at cell 4. *)
Definition one_probe_instance : Instance :=
  mkInstance (grid_locs 3 3)
    [false; false; false; false; true; false; false; false; false]
    [true; true; true; true; false; true; true; true; true].

(** The same grid with the keepout range [1, 2): one keepout per
    instance. *)
Definition keepout_env : MDPPEnv :=
  mkMDPPEnv (mkDPPEnv 3 1 2 example_simulator) 2 3 "minmax".

(** ** Step *)

(** [MDPPEnv._step]: the step of the parent, unchanged. *)
Definition _step (super_step : TensorDict → result TensorDict) (td : TensorDict)
    : result TensorDict :=
  super_step td.

(** ** Schema declarations *)

Inductive dtype : Type := float32 | int64 | bool_.

(** A tensor spec: shape, dtype and, for a bounded spec, the minimum and
    the maximum, both included. *)
Record TensorSpec : Type := mkTensorSpec {
  spec_shape : list nat;
  spec_dtype : dtype;
  spec_bounds : option (Q * Q)
}.

Record ObservationSpec : Type := mkObservationSpec {
  spec_locs : TensorSpec;
  spec_probe : TensorSpec;
  spec_first_node : TensorSpec;
  spec_current_node : TensorSpec;
  spec_i : TensorSpec;
  spec_action_mask : TensorSpec
}.

Record EnvSpecs : Type := mkEnvSpecs {
  observation_spec : ObservationSpec;
  input_spec : ObservationSpec;
  action_spec : TensorSpec;
  reward_spec : TensorSpec;
  done_spec : TensorSpec
}.

(** [MDPPEnv._make_spec]: [min_loc] and [max_loc] are attributes of the
    parent. *)
Definition _make_spec (self : MDPPEnv) (min_loc max_loc : Q) : EnvSpecs :=
  let size := size (super self) in
  let observation_spec :=
    mkObservationSpec
      (mkTensorSpec [size ^ 2; 2] float32 (Some (min_loc, max_loc)))
      (mkTensorSpec [size ^ 2] bool_ None)
      (mkTensorSpec [1] int64 None)
      (mkTensorSpec [1] int64 None)
      (mkTensorSpec [1] int64 None)
      (mkTensorSpec [size ^ 2] bool_ None) in
  mkEnvSpecs observation_spec observation_spec
    (mkTensorSpec [1] int64
       (Some (inject_Z 0, inject_Z (Z.of_nat (size ^ 2)))))
    (mkTensorSpec [1] float32 None)
    (mkTensorSpec [1] bool_ None).

(** ** Rendering

    The arguments [decaps] and [probe] of [render] are tensors of cell
    indices; a cell index is a natural number. [probe] and [action_mask]
    have one dimension, [decaps] has shape (T,) or shape (T, 1), as a
    sequence of actions has. [render] draws on a
    matplotlib axes and returns nothing: the embedding keeps the category
    of every grid cell and the rectangles handed to [ax.add_patch], in the
    order of the calls, and leaves out the calls that only set up the
    axes and the legend. *)

(** The third channel of [grid] only ever holds the keys 0, 1, 2 and 3 of
    [settings]. *)
Inductive Category : Type := Available | Keepout | Probe | Decap.

#[global] Instance Category_inhabited : Inhabited Category := populate Available.

Definition category_key (c : Category) : nat :=
  match c with Available => 0 | Keepout => 1 | Probe => 2 | Decap => 3 end.

(** [settings[key]]: the color and the label of a category. *)
Definition settings (c : Category) : string * string :=
  match c with
  | Available => ("white", "available")
  | Keepout => ("grey", "keepout")
  | Probe => ("tab:red", "probe")
  | Decap => ("tab:blue", "decap")
  end.

Definition count_of (x : nat) (l : list nat) : nat :=
  length (filter (fun y => y = x) l).

(** [torch.unique(t, return_counts=True)]: the distinct elements in
    increasing order, each with its number of occurrences. *)
Definition unique (l : list nat) : list (nat * nat) :=
  (fun x => (x, count_of x l))
    <$> filter (fun x => x ∈ l) (seq 0 (S (max_list l))).

(** The tensor [decaps]: cell indices in a tensor of shape (T,)
    ([Decaps1]) or of shape (T, 1) ([Decaps2]). *)
Inductive DecapsTensor : Type :=
| Decaps1 (cells : list nat)
| Decaps2 (cells : list nat).

Definition decap_cells (decaps : DecapsTensor) : list nat :=
  match decaps with
  | Decaps1 cells | Decaps2 cells => cells
  end.

(** [decaps.squeeze(-1)]: the last dimension is removed when its size is
    1. Shape (T, 1) becomes shape (T,); shape (1,) becomes shape (), which
    is [None] here; any other shape (T,) is kept. *)
Definition squeeze_last (decaps : DecapsTensor) : option (list nat) :=
  match decaps with
  | Decaps2 cells => Some cells
  | Decaps1 [_] => None
  | Decaps1 cells => Some cells
  end.

(** [unique_elements[counts == 1]]: the cells that occur exactly once. *)
Definition occurring_once (cells : list nat) : list nat :=
  (filter (fun xc => xc.2 = 1) (unique cells)).*1.

(** The tensor [keepout] of [render]: the cells that occur exactly once
    among the cells that the mask blocks, the probes and the decaps.
    [torch.cat] raises on a tensor of shape (). *)
Definition render_keepout (decaps : DecapsTensor) (probe : list nat)
    (action_mask : list bool) : result (list nat) :=
  let nonzero_indices := Z.to_nat <$> nonzero (negb <$> action_mask) in
  match squeeze_last decaps with
  | None => Raise RuntimeError
  | Some cells =>
      let keepout := nonzero_indices ++ probe ++ cells in
      Ok (occurring_once keepout)
  end.

(** [grid[cells // size, cells % size, 2] = c] on a grid of [size] rows and
    [size] columns: a row index outside the grid raises IndexError, and so
    does the integer division by a zero [size] raise. *)
Definition grid_set (size : nat) (grid : list (list Category)) (cells : list nat)
    (c : Category) : result (list (list Category)) :=
  if decide (size = 0 ∧ (cells ≠ [])) then Raise RuntimeError
  else if forallb (fun k => bool_decide (k `div` size < size)) cells then
    Ok (foldl (fun g k => alter (fun row => <[k `mod` size := c]> row) (k `div` size) g)
          grid cells)
  else Raise IndexError.

(** The third channel of [grid] after the three assignments. *)
Definition render_grid (self : MDPPEnv) (decaps : DecapsTensor) (probe : list nat)
    (action_mask : list bool) : result (list (list Category)) :=
  let size := size (super self) in
  keepout ← render_keepout decaps probe action_mask;
  let grid := replicate size (replicate size Available) in
  (* Add keepout = 1 *)
  grid ← grid_set size grid keepout Keepout;
  (* Add probe = 2 *)
  grid ← grid_set size grid probe Probe;
  (* Add decaps = 3 *)
  grid_set size grid (decap_cells decaps) Decap.

(** The rectangles added to the axes: for [i] in [range(xdim)] and [j] in
    [range(ydim)], the corner [(x, y) = (grid[i, j, 0], grid[i, j, 1])],
    which the meshgrid makes [(j, i)], and the color of [grid[i, j, 2]]. *)
Definition render (self : MDPPEnv) (decaps : DecapsTensor) (probe : list nat)
    (action_mask : list bool) : result (list (nat * nat * string)) :=
  grid ← render_grid self decaps probe action_mask;
  let xdim := size (super self) in
  let ydim := size (super self) in
  Ok (i ← seq 0 xdim;
      j ← seq 0 ydim;
      [(j, i, (settings ((grid !!! i) !!! j)).1)]).

(** The category that a cell ends with: a decap before a probe, a probe
    before a blocked cell. *)
Definition final_category (decaps probe : list nat) (action_mask : list bool)
    (k : nat) : Category :=
  if bool_decide (k ∈ decaps) then Decap
  else if bool_decide (k ∈ probe) then Probe
  else if bool_decide (action_mask !! k = Some false) then Keepout
  else Available.

(** The environment of the scenario with the probe range [[-1, 0)]. *)
Definition negative_env : MDPPEnv :=
  mkMDPPEnv (mkDPPEnv 3 0 1 example_simulator) (-1) 0 "minmax".

(** The environment of the scenario with the probe range [[12, 13)]. *)
Definition crowded_env : MDPPEnv :=
  mkMDPPEnv (mkDPPEnv 3 0 1 example_simulator) 12 13 "minmax".

(** The environment of the scenario with an empty probe range. *)
Definition empty_range_env : MDPPEnv :=
  mkMDPPEnv (mkDPPEnv 3 0 1 example_simulator) 2 2 "minmax".

(** * Properties *)

(** ** The error monad *)

Lemma bind_Ok {A B : Type} (m : result A) (k : A → result B) (b : B) :
  m ≫= k = Ok b ↔ ∃ a, m = Ok a ∧ k a = Ok b.
Proof.
  destruct m as [a|e]; simpl; split.
  - eauto.
  - by intros (a' & [= <-] & Hk).
  - done.
  - by intros (a' & [=] & _).
Qed.

Lemma for_each_Forall2 {A B : Type} (f : A → result B) (l : list A) (ys : list B) :
  for_each f l = Ok ys ↔ Forall2 (fun x y => f x = Ok y) l ys.
Proof.
  revert ys. induction l as [|x l IH]; intros ys; simpl.
  - split; [intros [= <-]; constructor | by inversion 1].
  - split.
    + destruct (f x) as [y|e] eqn:Hx; simpl; [|done].
      destruct (for_each f l) as [ys'|e] eqn:Hl; simpl; [|done].
      intros [= <-]. constructor; [done | by apply IH].
    + inversion 1 as [|? y ? ys' Hx Hl]; subst.
      rewrite Hx. simpl. apply IH in Hl. by rewrite Hl.
Qed.

Lemma for_each_fmap {A B C : Type} (f : A → result B) (g : C → A) (h : C → B)
    (l : list C) :
  (∀ c, c ∈ l → f (g c) = Ok (h c)) → for_each f (g <$> l) = Ok (h <$> l).
Proof.
  intros Hf. apply for_each_Forall2, Forall2_fmap, Forall2_same_length_lookup.
  split; [done|]. intros i x y Hx Hy. rewrite Hx in Hy. injection Hy as <-.
  apply Hf. by eapply list_elem_of_lookup_2.
Qed.

Lemma for_each_length {A B : Type} (f : A → result B) (l : list A) (ys : list B) :
  for_each f l = Ok ys → length ys = length l.
Proof. intros H%for_each_Forall2. symmetry. by eapply Forall2_length. Qed.

(** ** Reward of one instance *)

Lemma nonzero_from_length (c : Z) (mask : list bool) :
  length (nonzero_from c mask) = count_true mask.
Proof.
  unfold count_true. revert c. induction mask as [|b mask IH]; intros c; [done|].
  destruct b; cbn [nonzero_from].
  - rewrite filter_cons_True by done. cbn [length]. by rewrite IH.
  - rewrite filter_cons_False by (by intros []). apply IH.
Qed.

Lemma nonzero_length (mask : list bool) : length (nonzero mask) = count_true mask.
Proof. apply nonzero_from_length. Qed.

Lemma fill_scores_Long1 (sim : Z → Q) (rows pre zs : list Z) :
  length zs = length rows →
  fill_scores sim (zip (seq (length pre) (length rows)) rows) (Long1 (pre ++ zs))
  = Ok (Long1 (pre ++ ((fun p => to_int64 (sim p)) <$> rows))).
Proof.
  revert pre zs. induction rows as [|p rows IH]; intros pre zs Hlen.
  - destruct zs; [done | discriminate].
  - destruct zs as [|z zs]; [discriminate|]. injection Hlen as Hlen.
    cbn [length seq zip zip_with fill_scores setitem fmap list_fmap].
    rewrite decide_True by (rewrite length_app; simpl; lia). simpl.
    rewrite insert_app_r_alt by lia. rewrite Nat.sub_diag. simpl.
    specialize (IH (pre ++ [to_int64 (sim p)]) zs Hlen).
    rewrite length_app, Nat.add_1_r, <- !(assoc_L (++)) in IH. apply IH.
Qed.

(** What the loop leaves in [scores] when [list_probe] has shape (k,). *)
Lemma fill_scores_enumerate (sim : Z → Q) (rows : list Z) :
  fill_scores sim (enumerate rows) (zeros_like (Long1 rows))
  = Ok (Long1 ((fun p => to_int64 (sim p)) <$> rows)).
Proof.
  apply (fill_scores_Long1 sim rows [] (replicate (length rows) 0%Z)).
  apply length_replicate.
Qed.

(** The reward of one instance, by the shape of [list_probe]. *)
Lemma single_env_reward_unfold (self : MDPPEnv) (td : Instance) (actions : list Z) :
  _single_env_reward self td actions =
  match nonzero (probe td) with
  | [_] => Raise TypeError
  | rows =>
      let scores :=
        (fun p => to_int64 (_decap_simulator (super self) p actions)) <$> rows in
      if bool_decide (reward_type self = "minmax") then tensor_min (Long1 scores)
      else Raise RuntimeError
  end.
Proof.
  unfold _single_env_reward.
  destruct (nonzero (probe td)) as [|z [|z' rows]] eqn:Hnz; [| done |].
  - simpl. by case_bool_decide.
  - change (squeeze (z :: z' :: rows)) with (Long1 (z :: z' :: rows)).
    cbn [iter mbind result_bind].
    rewrite (fill_scores_enumerate
      (fun p => _decap_simulator (super self) p actions)).
    cbn [mbind result_bind]. by case_bool_decide.
Qed.

Lemma single_env_reward_minmax (self : MDPPEnv) (td : Instance) (actions : list Z) :
  reward_type self = "minmax" →
  2 ≤ count_true (probe td) →
  ∃ z zs, (fun p => to_int64 (_decap_simulator (super self) p actions))
            <$> nonzero (probe td) = z :: zs
          ∧ _single_env_reward self td actions = Ok (Long0 (list_min z zs)).
Proof.
  intros Hrt Hk. rewrite single_env_reward_unfold, <- nonzero_length in *.
  destruct (nonzero (probe td)) as [|z [|z' rows]]; simpl in Hk; [lia | lia |].
  rewrite bool_decide_eq_true_2 by done. simpl. eauto.
Qed.

Lemma single_env_reward_Long0 (self : MDPPEnv) (td : Instance) (actions : list Z)
    (t : LongTensor) :
  _single_env_reward self td actions = Ok t → ∃ z, t = Long0 z.
Proof.
  rewrite single_env_reward_unfold.
  destruct (nonzero (probe td)) as [|z [|z' rows]]; [| done |];
    simpl; case_bool_decide; try done.
  intros [= <-]. eauto.
Qed.

(** C2 (divergence of the code): on the scenario of the specification,
    per-probe scores 0.4 and 0.9, the described rewards are 0.4 under
    "minmax" and 0.65 under "meansum"; the code returns the int64 value 0
    under "minmax", the scores having been truncated when they were stored
    in a tensor of the dtype of the probe indices, and raises under
    "meansum", the mean of an int64 tensor being undefined. *)
Theorem single_env_reward_example_scores :
  (fun p => _decap_simulator (super (example_env "minmax")) p [])
    <$> nonzero (probe example_instance) = [(4 # 10)%Q; (9 # 10)%Q]
  ∧ (∃ q, aggregate_spec "minmax" [(4 # 10)%Q; (9 # 10)%Q] = Some q ∧ (q == 4 # 10)%Q)
  ∧ (∃ q, aggregate_spec "meansum" [(4 # 10)%Q; (9 # 10)%Q] = Some q ∧ (q == 65 # 100)%Q)
  ∧ (∃ t, _single_env_reward (example_env "minmax") example_instance [] = Ok t
          ∧ item t = Some 0%Q)
  ∧ ¬ (0 == 4 # 10)%Q
  ∧ _single_env_reward (example_env "meansum") example_instance [] = Raise RuntimeError.
Proof.
  split; [reflexivity|].
  split; [eexists; split; [reflexivity | reflexivity]|].
  split; [eexists; split; [reflexivity | reflexivity]|].
  split; [eexists; split; reflexivity|].
  split; [discriminate | reflexivity].
Qed.

(** C7 (divergence of the code): under "meansum" the reward of an instance
    is never returned, whatever the instance, the actions and the
    simulator: there is no mean for the minimum to be compared with. *)
Theorem single_env_reward_meansum_raises (base : DPPEnv) (pmin pmax : Z)
    (td : Instance) (actions : list Z) :
  raises (_single_env_reward (mkMDPPEnv base pmin pmax "meansum") td actions).
Proof.
  rewrite single_env_reward_unfold. unfold raises.
  destruct (nonzero (probe td)) as [|z [|z' rows]]; simpl; eauto.
Qed.

(** C10: an instance with exactly one probe cell has a [list_probe] of
    shape () and its reward raises TypeError at the enumeration; with no
    probe cell the reward raises too, so a reward is returned only for
    instances with at least two probe cells. *)
Theorem single_env_reward_needs_two_probes (self : MDPPEnv) (td : Instance)
    (actions : list Z) :
  count_true (probe td) ≤ 1 →
  raises (_single_env_reward self td actions)
  ∧ (count_true (probe td) = 1 →
     (∃ z, squeeze (nonzero (probe td)) = Long0 z)
     ∧ _single_env_reward self td actions = Raise TypeError).
Proof.
  intros Hk. rewrite single_env_reward_unfold, <- nonzero_length in *.
  unfold raises.
  destruct (nonzero (probe td)) as [|z [|z' rows]]; simpl in *; [| | lia].
  - split; [|lia]. case_bool_decide; eauto.
  - eauto.
Qed.

Lemma single_env_reward_needs_two_probes_witness :
  count_true (probe one_probe_instance) ≤ 1
  ∧ raises (_single_env_reward (example_env "minmax") one_probe_instance [3; 5]%Z)
  ∧ _single_env_reward (example_env "minmax") one_probe_instance [3; 5]%Z
    = Raise TypeError.
Proof.
  assert (H : count_true (probe one_probe_instance) ≤ 1) by (vm_compute; lia).
  split; [exact H|].
  destruct (single_env_reward_needs_two_probes
              (example_env "minmax") one_probe_instance [3; 5]%Z H) as [Hr H1].
  split; [exact Hr|]. apply H1. reflexivity.
Defined.

(** ** Reward of a batch *)

Lemma stack_Long0 (zs : list Z) :
  zs ≠ [] → stack (Long0 <$> zs) = Ok (Long1 zs).
Proof.
  intros Hne. unfold stack.
  assert (for_each (fun t => match t with
                             | Long0 z => Ok z
                             | Long1 _ => Raise RuntimeError
                             end) (Long0 <$> zs) = Ok (id <$> zs)) as ->
    by (by apply for_each_fmap).
  rewrite list_fmap_id. by destruct zs.
Qed.

(** C6, amended: on a non-empty batch whose per-instance rewards are
    returned, [get_reward] returns a tensor of shape (B,) that holds the
    reward of each instance in order; the unbatched call is the batched
    call on the batch of that one instance, with the same result or the
    same exception, and its result has shape (1,). *)
Theorem get_reward_shape (self : MDPPEnv) (tds : list Instance)
    (actions : list (list Z)) :
  tds ≠ [] →
  length actions = length tds →
  Forall (fun '(td, a) => returns (_single_env_reward self td a)) (zip tds actions) →
  (∃ rs, get_reward self (Batched tds actions) = Ok (Long1 rs)
         ∧ length rs = length tds
         ∧ Forall2 (fun r '(td, a) => _single_env_reward self td a = Ok (Long0 r))
             rs (zip tds actions))
  ∧ (∀ td a, get_reward self (Unbatched td a) = get_reward self (Batched [td] [a]))
  ∧ (∀ td a t, get_reward self (Unbatched td a) = Ok t →
       ∃ r, t = Long1 [r] ∧ _single_env_reward self td a = Ok (Long0 r)).
Proof.
  intros Hne Hlen Hret. split; [|split].
  - assert (∃ rs, Forall2 (fun r '(td, a) => _single_env_reward self td a = Ok (Long0 r))
                    rs (zip tds actions)) as [rs Hrs].
    { induction Hret as [|[td a] l [t Ht] _ [rs IH]]; [by exists []|].
      destruct (single_env_reward_Long0 _ _ _ _ Ht) as [z ->].
      exists (z :: rs). by constructor. }
    assert (length rs = length tds) as Hrl.
    { apply Forall2_length in Hrs. rewrite length_zip in Hrs. lia. }
    exists rs. split; [|done].
    unfold get_reward.
    assert (for_each (fun '(td_single, action) => _single_env_reward self td_single action)
              (zip tds actions) = Ok (Long0 <$> rs)) as ->.
    { apply for_each_Forall2, Forall2_fmap_r, Forall2_flip.
      eapply Forall2_impl; [exact Hrs|]. by intros r [td a]. }
    cbn [mbind result_bind]. apply stack_Long0.
    intros ->. destruct tds; [done | discriminate].
  - done.
  - intros td a t. unfold get_reward. cbn [zip zip_with for_each].
    destruct (_single_env_reward self td a) as [t'|e] eqn:Ht; [|done].
    destruct (single_env_reward_Long0 _ _ _ _ Ht) as [z ->].
    simpl. intros [= <-]. eauto.
Qed.

Lemma get_reward_shape_witness :
  ∃ rs, get_reward (example_env "minmax")
          (Batched [example_instance; example_instance] [[2]; [3; 4]]%Z)
        = Ok (Long1 rs)
        ∧ length rs = 2.
Proof.
  destruct (get_reward_shape (example_env "minmax")
              [example_instance; example_instance] [[2]; [3; 4]]%Z)
    as [(rs & Hrs & Hlen & _) _].
  - discriminate.
  - reflexivity.
  - repeat constructor; eexists; reflexivity.
  - exists rs. split; [exact Hrs | exact Hlen].
Defined.

(** C6 (the claim as stated fails): [get_reward] does not return a
    tensor of shape (B,) on every batch. On the empty batch, B = 0, there
    is nothing to stack and it raises; on a batch of two instances of the
    scenario under "meansum" it raises too, and so does the unbatched call
    on one of them. *)
Lemma get_reward_raises_on_some_batches :
  get_reward (example_env "minmax") (Batched [] []) = Raise RuntimeError
  ∧ get_reward (example_env "meansum")
      (Batched [example_instance; example_instance] [[4]; [5]]%Z)
    = Raise RuntimeError
  ∧ get_reward (example_env "meansum") (Unbatched example_instance [4]%Z)
    = Raise RuntimeError.
Proof. repeat split; reflexivity. Qed.

(** ** Construction *)

(** C8: with a [reward_type] other than "minmax" and "meansum" the
    construction raises, the assertion failing once the parent is built,
    and no environment exists on which an instance could be generated;
    with either recognized value the construction returns the environment
    whenever the parent's constructor returns. *)
Theorem init_checks_reward_type (super_init : result DPPEnv) (pmin pmax : Z)
    (rt : string) :
  (rt ≠ "minmax" → rt ≠ "meansum" →
     raises (__init__ super_init pmin pmax rt)
     ∧ ∀ base, super_init = Ok base →
         __init__ super_init pmin pmax rt
         = Raise (AssertionError "reward_type must be minmax or meansum"))
  ∧ (rt = "minmax" ∨ rt = "meansum" →
     ∀ base, super_init = Ok base →
       __init__ super_init pmin pmax rt = Ok (mkMDPPEnv base pmin pmax rt)).
Proof.
  unfold __init__, raises. split.
  - intros H1 H2.
    assert (rt ∉ ["minmax"; "meansum"]) as Hnot.
    { rewrite !elem_of_cons, elem_of_nil. tauto. }
    split.
    + destruct super_init as [base|e]; simpl; [|eauto].
      rewrite bool_decide_eq_false_2 by done. eauto.
    + intros base ->. simpl. by rewrite bool_decide_eq_false_2.
  - intros Hrt base ->. simpl.
    rewrite bool_decide_eq_true_2; [done|].
    rewrite !elem_of_cons. tauto.
Qed.

Lemma init_checks_reward_type_witness :
  raises (__init__ (Ok (super keepout_env)) 2 5 "maxmin")
  ∧ __init__ (Ok (super keepout_env)) 2 5 "meansum"
    = Ok (mkMDPPEnv (super keepout_env) 2 5 "meansum").
Proof.
  destruct (init_checks_reward_type (Ok (super keepout_env)) 2 5 "maxmin")
    as [Hbad _].
  destruct (init_checks_reward_type (Ok (super keepout_env)) 2 5 "meansum")
    as [_ Hgood].
  split.
  - apply Hbad; discriminate.
  - apply Hgood; [right; reflexivity | reflexivity].
Defined.

(** ** Reset *)

Lemma logical_or_lookup (a b m : list bool) (c : nat) (x y : bool) :
  length a = length b →
  logical_or a b = Ok m →
  a !! c = Some x → b !! c = Some y → m !! c = Some (x || y).
Proof.
  intros Hlen. unfold logical_or. rewrite decide_True by done.
  intros [= <-] Ha Hb. rewrite lookup_zip_with, Ha. simpl. by rewrite Hb.
Qed.

(** Whatever the parent's reset hands on, the reset marks every probe cell
    selectable. *)
Lemma reset_mask_selects_probes (td_reset td : Instance) (c : nat) :
  length (action_mask td_reset) = length (probe td_reset) →
  reset_mask td_reset = Ok td →
  probe td !! c = Some true → action_mask td !! c = Some true.
Proof.
  intros Hlen. unfold reset_mask.
  destruct (logical_or (action_mask td_reset) (probe td_reset)) as [m|e] eqn:Hor;
    simpl; [|done].
  intros [= <-]. simpl. intros Hp.
  destruct (lookup_lt_is_Some_2 (action_mask td_reset) c) as [x Hx].
  { rewrite Hlen. by eapply lookup_lt_Some. }
  rewrite (logical_or_lookup _ _ _ _ _ _ Hlen Hor Hx Hp). by rewrite orb_true_r.
Qed.

Lemma reset_mask_returns (td_reset : Instance) :
  length (action_mask td_reset) = length (probe td_reset) →
  reset_mask td_reset
  = Ok (mkInstance (locs td_reset) (probe td_reset)
          (zip_with orb (action_mask td_reset) (probe td_reset))).
Proof. intros Hlen. unfold reset_mask, logical_or. by rewrite decide_True. Qed.

(** ** Generation *)

Lemma zip_fmap {A B C : Type} (f : A → B) (g : A → C) (l : list A) :
  zip (f <$> l) (g <$> l) = (fun x => (f x, g x)) <$> l.
Proof. by rewrite zip_with_fmap_l, zip_with_fmap_r, zip_with_diag. Qed.

Lemma zip_with_fmap_diag {A B C D : Type} (k : B → C → D) (f : A → B) (g : A → C)
    (l : list A) :
  zip_with k (f <$> l) (g <$> l) = (fun x => k (f x) (g x)) <$> l.
Proof. by rewrite zip_with_fmap_l, zip_with_fmap_r, zip_with_diag. Qed.

Lemma replicate_fmap {A B : Type} (y : B) (l : list A) :
  replicate (length l) y = (fun _ => y) <$> l.
Proof. symmetry. by apply const_fmap. Qed.

Lemma scatter_value_length (src : list bool) (index : list Z) (value : bool) :
  length (scatter_value src index value) = length src.
Proof.
  unfold scatter_value. revert src.
  induction index as [|j index IH]; intros src; simpl; [done|].
  by rewrite IH, length_insert.
Qed.

Lemma scatter_returns (src : list bool) (index : list Z) (value : bool) :
  Forall (fun j => (0 ≤ j < Z.of_nat (length src))%Z) index →
  scatter src index value = Ok (scatter_value src index value).
Proof.
  intros Hin. unfold scatter.
  assert (forallb (fun j => bool_decide (0 ≤ j < Z.of_nat (length src))%Z) index
          = true) as ->; [|done].
  induction Hin as [|j index Hj _ IH]; cbn [forallb]; [done|].
  by rewrite IH, bool_decide_eq_true_2.
Qed.

(** A cell of the scattered tensor holds the value when its index is among
    the indices, and is unchanged otherwise. *)
Lemma scatter_value_lookup (src : list bool) (index : list Z) (value : bool)
    (c : nat) :
  Forall (fun j => (0 ≤ j)%Z) index →
  scatter_value src index value !! c
  = if bool_decide (Z.of_nat c ∈ index) then (fun _ => value) <$> src !! c
    else src !! c.
Proof.
  unfold scatter_value. intros Hin. revert src.
  induction Hin as [|j index Hj _ IH]; intros src; cbn [foldl].
  - rewrite bool_decide_eq_false_2; [done|]. apply not_elem_of_nil.
  - rewrite IH, list_lookup_insert.
    destruct (decide (Z.of_nat c = j)) as [<-|Hne].
    + rewrite Nat2Z.id.
      rewrite (bool_decide_eq_true_2 (_ ∈ _ :: _)) by (apply elem_of_cons; by left).
      destruct (decide (c = c ∧ c < length src)) as [[_ Hlt]|Hge].
      * destruct (lookup_lt_is_Some_2 src c Hlt) as [x ->]. by case_bool_decide.
      * rewrite (lookup_ge_None_2 src c) by lia. by case_bool_decide.
    + rewrite decide_False by lia.
      apply (f_equal (fun b : bool => if b then _ else _)).
      apply bool_decide_ext. rewrite elem_of_cons. tauto.
Qed.

Lemma randperm_in_range (N : nat) (perm : list Z) (stop : Z) :
  is_randperm N perm →
  Forall (fun j => (0 ≤ j < Z.of_nat N)%Z) (slice_to perm stop).
Proof.
  intros Hperm. apply Forall_forall. intros j Hj.
  assert (j ∈ perm) as Hin.
  { unfold slice_to in Hj. case_decide; by eapply subseteq_take. }
  rewrite Hperm, elem_of_seqZ in Hin. lia.
Qed.

Lemma randint_returns (low high : Z) (us : list Z) :
  (low < high)%Z →
  randint low high us = Ok ((fun u => (low + u `mod` (high - low))%Z) <$> us).
Proof. intros H. unfold randint. by rewrite decide_True. Qed.

Lemma num_probe_in_range (self : MDPPEnv) (r : Draws) :
  (num_probes_min self < num_probes_max self)%Z →
  (num_probes_min self ≤ num_probe self r < num_probes_max self)%Z.
Proof.
  intros Hp. unfold num_probe.
  pose proof (Z.mod_pos_bound (u_num_probe r)
                (num_probes_max self - num_probes_min self)). lia.
Qed.

Lemma slice_to_nonneg (N : nat) (perm : list Z) (stop : Z) :
  is_randperm N perm → Forall (fun j => (0 ≤ j)%Z) (slice_to perm stop).
Proof.
  intros Hperm. eapply Forall_impl; [by apply randperm_in_range|].
  simpl. lia.
Qed.

(** *** The number of probe cells *)

Lemma count_true_app (l k : list bool) :
  count_true (l ++ k) = count_true l + count_true k.
Proof. unfold count_true. by rewrite filter_app, length_app. Qed.

Lemma count_true_replicate_false (n : nat) : count_true (replicate n false) = 0.
Proof. induction n as [|n IH]; [done|]. apply IH. Qed.

Lemma count_true_insert (l : list bool) (i : nat) :
  l !! i = Some false → count_true (<[i := true]> l) = S (count_true l).
Proof.
  intros Hi. pose proof (lookup_lt_Some _ _ _ Hi) as Hlt.
  rewrite insert_take_drop by done.
  rewrite <- (take_drop_middle l i false Hi) at 3.
  rewrite !count_true_app. change (count_true (?b :: ?k)) with (count_true ([b] ++ k)).
  rewrite !count_true_app. unfold count_true at 2 5. simpl. lia.
Qed.

Lemma count_true_scatter (src : list bool) (index : list Z) :
  NoDup index →
  Forall (fun j => (0 ≤ j)%Z ∧ src !! Z.to_nat j = Some false) index →
  count_true (scatter_value src index true) = count_true src + length index.
Proof.
  unfold scatter_value. intros Hnd. revert src.
  induction Hnd as [|j index Hj Hnd IH]; intros src Hin; cbn [foldl length].
  - lia.
  - apply Forall_cons in Hin as [[Hj0 Hjf] Hin].
    rewrite IH, (count_true_insert _ _ Hjf); [lia|].
    rewrite Forall_forall in Hin. apply Forall_forall. intros j' Hj'.
    destruct (Hin j' Hj') as [Hj'0 Hj'f]. split; [done|].
    rewrite list_lookup_insert_ne; [done|].
    intros Heq. apply Hj. by rewrite (Z2Nat.inj j j' Hj0 Hj'0 Heq).
Qed.

Lemma randperm_NoDup (N : nat) (perm : list Z) (stop : Z) :
  is_randperm N perm → NoDup (slice_to perm stop).
Proof.
  intros Hperm. assert (NoDup perm) as Hnd by (rewrite Hperm; apply NoDup_seqZ).
  unfold slice_to. case_decide; eapply sublist_NoDup; eauto using sublist_take.
Qed.

Lemma randperm_slice_length (N : nat) (perm : list Z) (stop : Z) :
  is_randperm N perm → (0 ≤ stop ≤ Z.of_nat N)%Z →
  length (slice_to perm stop) = Z.to_nat stop.
Proof.
  intros Hperm Hstop. unfold slice_to. rewrite decide_True by lia.
  apply length_take_le. rewrite Hperm, length_seqZ. lia.
Qed.

(** *** One instance

    The masks of the instance built from the draws [r], on a grid that is
    not empty and for permutations of its cells. *)

Section one_instance.
Context (self : MDPPEnv) (r : Draws).
Hypothesis Hsize : 0 < size (super self).
Hypothesis Hdraws : valid_draws (num_cells self) r.

Lemma designated_probe_in_range :
  (0 ≤ designated_probe self r < Z.of_nat (num_cells self))%Z.
Proof using Hsize.
  unfold designated_probe.
  assert (0 < Z.of_nat (num_cells self))%Z by (unfold num_cells; nia).
  pose proof (Z.mod_pos_bound (u_probe r) (Z.of_nat (num_cells self) - 0)). lia.
Qed.

Lemma instance_lengths :
  length (action_mask (instance_of self r)) = num_cells self
  ∧ length (probe (instance_of self r)) = num_cells self.
Proof using Type.
  cbn [instance_of action_mask probe].
  by rewrite !scatter_value_length, !length_replicate.
Qed.

Lemma instance_probe_lookup (c : nat) :
  c < num_cells self →
  probe (instance_of self r) !! c
  = Some (bool_decide (Z.of_nat c ∈ probe_cells self r)).
Proof using Hdraws.
  clear Hsize. destruct Hdraws as [Hp _]. intros Hc. cbn [instance_of probe].
  rewrite scatter_value_lookup by (by eapply slice_to_nonneg).
  rewrite lookup_replicate_2 by done. by case_bool_decide.
Qed.

Lemma instance_action_mask_lookup (c : nat) :
  c < num_cells self →
  action_mask (instance_of self r) !! c
  = Some (bool_decide ((Z.of_nat c ≠ designated_probe self r)
                       ∧ (Z.of_nat c ∉ probe_cells self r)
                       ∧ (Z.of_nat c ∉ keepout_cells self r))).
Proof using Hsize Hdraws.
  destruct Hdraws as [Hp Hk]. intros Hc. cbn [instance_of action_mask].
  pose proof designated_probe_in_range as Hd.
  rewrite !scatter_value_lookup;
    [| constructor; [lia | done] | by eapply slice_to_nonneg
     | by eapply slice_to_nonneg].
  rewrite lookup_replicate_2 by done.
  repeat case_bool_decide; simpl; try done;
    rewrite ?list_elem_of_singleton in *; tauto.
Qed.

Lemma instance_count_probes :
  (0 ≤ num_probe self r ≤ Z.of_nat (num_cells self))%Z →
  count_true (probe (instance_of self r)) = Z.to_nat (num_probe self r).
Proof using Hdraws.
  clear Hsize. destruct Hdraws as [Hp _]. intros Hnum. cbn [instance_of probe].
  rewrite count_true_scatter, count_true_replicate_false.
  - by apply (randperm_slice_length (num_cells self)).
  - by apply (randperm_NoDup (num_cells self)).
  - eapply Forall_impl; [by apply randperm_in_range|].
    intros j Hj. cbn beta in Hj. split; [lia|].
    apply lookup_replicate_2. lia.
Qed.
End one_instance.

(** *** The batch *)

(** With non-empty sampler ranges and permutations for draws, the
    generator returns, and each instance is built from its own draws. *)
Theorem generate_data_returns (self : MDPPEnv) (batch_size : BatchSize)
    (rng : nat → Draws) :
  valid_config self →
  (∀ i, i < batch_length batch_size → valid_draws (num_cells self) (rng i)) →
  generate_data self batch_size rng
  = Ok (pack batch_size
          (instance_of self <$> (rng <$> seq 0 (batch_length batch_size)))).
Proof.
  intros (Hsize & Hp & Hk) Hdraws. unfold generate_data.
  change (match batch_size with BShape0 => 1 | BInt b | BShape1 b => b end)
    with (batch_length batch_size).
  change (size (super self) * size (super self)) with (num_cells self).
  assert (length (rng <$> seq 0 (batch_length batch_size))
          = batch_length batch_size) as Hlen
    by (by rewrite length_fmap, length_seq).
  assert (Forall (valid_draws (num_cells self))
            (rng <$> seq 0 (batch_length batch_size))) as Hvalid.
  { apply Forall_fmap, Forall_forall. intros i Hi%elem_of_seq. apply Hdraws. lia. }
  revert Hlen Hvalid.
  generalize (rng <$> seq 0 (batch_length batch_size)). intros rs Hlen Hvalid.
  rewrite <- Hlen, !replicate_fmap.
  pose proof (designated_probe_in_range self) as Hd.
  assert (0 < Z.of_nat (num_cells self))%Z as HN by (unfold num_cells; nia).
  rewrite (randint_returns 0 (Z.of_nat (num_cells self))) by done.
  rewrite (randint_returns (num_probes_min self)) by done.
  rewrite (randint_returns (num_keepout_min (super self))) by done.
  cbn [mbind result_bind].
  rewrite <- !list_fmap_compose.
  change (_ ∘ u_probe) with (designated_probe self).
  change (_ ∘ u_num_probe) with (num_probe self).
  change (_ ∘ u_num_keepout) with (num_keepout self).
  rewrite !zip_with_fmap_diag.
  change (fun r => slice_to (perm_probe r) (num_probe self r))
    with (probe_cells self).
  change (fun r => slice_to (perm_keepout r) (num_keepout self r))
    with (keepout_cells self).
  (* the designated probe *)
  cbn [mbind result_bind].
  rewrite ?zip_with_fmap_diag.
  rewrite (for_each_fmap _ _
    (fun r => scatter_value (replicate (num_cells self) true)
                [designated_probe self r] false)).
  2: { intros r _. apply scatter_returns. constructor; [|done].
       rewrite length_replicate. by apply Hd. }
  cbn [mbind result_bind].
  (* the probe set *)
  rewrite ?zip_with_fmap_diag.
  rewrite (for_each_fmap _ _
    (fun r =>
       (scatter_value
          (scatter_value (replicate (num_cells self) true)
             [designated_probe self r] false) (probe_cells self r) false,
        scatter_value (replicate (num_cells self) false) (probe_cells self r) true))).
  2: { intros r Hr.
       assert (Forall (fun j => (0 ≤ j < Z.of_nat (num_cells self))%Z)
                 (probe_cells self r)) as Hin.
       { apply randperm_in_range. rewrite Forall_forall in Hvalid.
         by destruct (Hvalid r Hr). }
       rewrite !scatter_returns; [done | |].
       - by rewrite scatter_value_length, length_replicate.
       - by rewrite length_replicate. }
  cbn [mbind result_bind].
  rewrite <- !list_fmap_compose.
  (* the keepouts *)
  rewrite ?zip_with_fmap_diag.
  rewrite (for_each_fmap _ _ (fun r => action_mask (instance_of self r))).
  2: { intros r Hr. cbn [compose fst].
       apply scatter_returns. rewrite !scatter_value_length, length_replicate.
       apply randperm_in_range. rewrite Forall_forall in Hvalid.
       by destruct (Hvalid r Hr). }
  cbn [mbind result_bind].
  rewrite zip_with_fmap_diag.
  change (fun r => mkInstance _ _ _) with (instance_of self).
  unfold pack. destruct batch_size; try done.
  by destruct (instance_of self <$> rs) as [|td [|td' tds]].
Qed.

Lemma instances_pack (batch_size : BatchSize) (tds : list Instance) :
  instances (pack batch_size tds) = tds.
Proof. by destruct batch_size, tds as [|td [|td' tds]]. Qed.

(** The instances that the generator returns. *)
Lemma generated_instances (self : MDPPEnv) (batch_size : BatchSize)
    (rng : nat → Draws) :
  valid_config self →
  (∀ i, i < batch_length batch_size → valid_draws (num_cells self) (rng i)) →
  ∃ out, generate_data self batch_size rng = Ok out
         ∧ length (instances out) = batch_length batch_size
         ∧ ∀ i td, instances out !! i = Some td ↔
                   i < batch_length batch_size ∧ td = instance_of self (rng i).
Proof.
  intros Hconf Hdraws. eexists. split; [by apply generate_data_returns|].
  rewrite instances_pack, !length_fmap, length_seq. split; [done|].
  intros i td. rewrite <- list_fmap_compose, list_lookup_fmap. split.
  - destruct (seq 0 (batch_length batch_size) !! i) as [i'|] eqn:Hi; [|done].
    apply lookup_seq in Hi as [-> Hi]. by intros [= <-].
  - intros [Hi ->]. by rewrite (lookup_seq_lt _ _ _ Hi).
Qed.

(** Every integer of the range is an outcome of the sampler. *)
Lemma randint_onto (low high p : Z) :
  (low ≤ p < high)%Z → randint low high [(p - low)%Z] = Ok [p].
Proof.
  intros Hp. rewrite randint_returns by lia. cbn [fmap list_fmap].
  rewrite Z.mod_small by lia. do 2 f_equal. lia.
Qed.

Lemma example_instance_generated :
  generate_data (example_env "minmax") BShape0 (fun _ => example_draws)
  = Ok (Single example_instance).
Proof. reflexivity. Qed.

(** C5: the generator draws one number of probes per instance, each
    within [num_probes_min, num_probes_max), upper bound excluded; every
    instance is built from its own draws only, its probe mask marks the first
    [num_probe] cells of its permutation, and it has [num_probe] probe
    cells when that number fits the grid. *)
Theorem num_probe_within_bounds (self : MDPPEnv) (batch_size : BatchSize)
    (rng : nat → Draws) :
  valid_config self →
  (∀ i, i < batch_length batch_size → valid_draws (num_cells self) (rng i)) →
  ∃ out,
    generate_data self batch_size rng = Ok out
    ∧ randint (num_probes_min self) (num_probes_max self)
        (u_num_probe <$> (rng <$> seq 0 (batch_length batch_size)))
      = Ok (num_probe self <$> (rng <$> seq 0 (batch_length batch_size)))
    ∧ length (instances out) = batch_length batch_size
    ∧ ∀ i td, instances out !! i = Some td →
        (num_probes_min self ≤ num_probe self (rng i) < num_probes_max self)%Z
        ∧ td = instance_of self (rng i)
        ∧ (∀ c, c < num_cells self →
             probe td !! c
             = Some (bool_decide
                       (Z.of_nat c
                        ∈ slice_to (perm_probe (rng i)) (num_probe self (rng i)))))
        ∧ ((0 ≤ num_probe self (rng i) ≤ Z.of_nat (num_cells self))%Z →
           count_true (probe td) = Z.to_nat (num_probe self (rng i))).
Proof.
  intros Hconf Hdraws.
  destruct (generated_instances self batch_size rng Hconf Hdraws)
    as (out & Hout & Hlen & Hinst).
  destruct Hconf as (Hsize & Hp & Hk).
  exists out. split; [done|]. split.
  { rewrite randint_returns by done. by rewrite <- !list_fmap_compose. }
  split; [done|]. intros i td [Hi ->]%Hinst.
  split; [by apply num_probe_in_range|]. split; [done|]. split.
  - intros c Hc. by apply instance_probe_lookup; [apply Hdraws|].
  - intros Hfit. by apply instance_count_probes; [apply Hdraws|].
Qed.

Lemma num_probe_within_bounds_witness :
  ∃ out,
    generate_data (example_env "minmax") (BInt 2) (fun _ => example_draws) = Ok out
    ∧ length (instances out) = 2
    ∧ ∀ i td, instances out !! i = Some td →
        (2 ≤ num_probe (example_env "minmax") example_draws < 3)%Z
        ∧ count_true (probe td) = 2.
Proof.
  destruct (num_probe_within_bounds (example_env "minmax") (BInt 2)
              (fun _ => example_draws))
    as (out & Hout & _ & Hlen & Hinst).
  - unfold valid_config. simpl. lia.
  - intros i _. split; unfold is_randperm; reflexivity.
  - exists out. split; [exact Hout|]. split; [exact Hlen|].
    intros i td Htd. destruct (Hinst i td Htd) as (Hrange & _ & _ & Hcount).
    split; [exact Hrange|]. apply Hcount. vm_compute. split; discriminate.
Defined.

(** C9: before the probe set is drawn, the generator draws one designated
    cell per instance, inside the grid, and marks it unavailable; the
    generated mask leaves selectable exactly the cells that are neither the
    designated cell, nor in the probe set, nor among the keepouts. *)
Theorem designated_probe_excluded (self : MDPPEnv) (batch_size : BatchSize)
    (rng : nat → Draws) :
  valid_config self →
  (∀ i, i < batch_length batch_size → valid_draws (num_cells self) (rng i)) →
  ∃ out,
    generate_data self batch_size rng = Ok out
    ∧ randint 0 (Z.of_nat (num_cells self))
        (u_probe <$> (rng <$> seq 0 (batch_length batch_size)))
      = Ok (designated_probe self <$> (rng <$> seq 0 (batch_length batch_size)))
    ∧ length (instances out) = batch_length batch_size
    ∧ ∀ i td, instances out !! i = Some td →
        (0 ≤ designated_probe self (rng i) < Z.of_nat (num_cells self))%Z
        ∧ action_mask td !! Z.to_nat (designated_probe self (rng i)) = Some false
        ∧ ∀ c, c < num_cells self →
            action_mask td !! c
            = Some (bool_decide ((Z.of_nat c ≠ designated_probe self (rng i))
                                 ∧ (Z.of_nat c ∉ probe_cells self (rng i))
                                 ∧ (Z.of_nat c ∉ keepout_cells self (rng i)))).
Proof.
  intros Hconf Hdraws.
  destruct (generated_instances self batch_size rng Hconf Hdraws)
    as (out & Hout & Hlen & Hinst).
  destruct Hconf as (Hsize & Hp & Hk).
  pose proof (designated_probe_in_range self) as Hd.
  exists out. split; [done|]. split.
  { rewrite randint_returns by (unfold num_cells; nia).
    by rewrite <- !list_fmap_compose. }
  split; [done|]. intros i td [Hi ->]%Hinst.
  specialize (Hd (rng i) Hsize). split; [done|]. split.
  - rewrite instance_action_mask_lookup; [| done | by apply Hdraws | lia].
    rewrite bool_decide_eq_false_2; [done|]. rewrite Z2Nat.id by lia. tauto.
  - intros c Hc. by apply instance_action_mask_lookup; [| apply Hdraws |].
Qed.

Lemma designated_probe_excluded_witness :
  ∃ out,
    generate_data keepout_env BShape0 (fun _ => example_draws) = Ok out
    ∧ ∀ td, instances out !! 0 = Some td →
        designated_probe keepout_env example_draws = 8%Z
        ∧ action_mask td !! 8 = Some false.
Proof.
  destruct (designated_probe_excluded keepout_env BShape0 (fun _ => example_draws))
    as (out & Hout & _ & _ & Hinst).
  - unfold valid_config. simpl. lia.
  - intros i _. split; unfold is_randperm; reflexivity.
  - exists out. split; [exact Hout|]. intros td Htd.
    destruct (Hinst 0 td Htd) as (_ & Hmask & _). split; [reflexivity | exact Hmask].
Defined.

(** C3 (divergence of the code): the keepouts are the first cells of a
    permutation of the whole grid, drawn without regard to the probe set;
    with the same permutation drawn twice, cell 0 is a probe cell and the
    keepout cell of the generated instance. *)
Theorem keepout_overlaps_probe :
  ∃ td,
    generate_data keepout_env BShape0 (fun _ => example_draws) = Ok (Single td)
    ∧ probe_cells keepout_env example_draws = [0; 1]%Z
    ∧ keepout_cells keepout_env example_draws = [0]%Z
    ∧ probe td !! 0 = Some true
    ∧ action_mask td !! 0 = Some false.
Proof. eexists. repeat split; reflexivity. Qed.

(** C1 (divergence of the code): on the instance generated in the scenario
    of the specification, whose probe cells 0 and 1 are excluded from the
    mask that the parent's reset hands on, the reset returns a mask that is
    true, selectable, at both probe cells. *)
Theorem reset_selects_probe_cells :
  ∃ td,
    _reset (fun _ => Ok (Single example_instance)) None = Ok (Single td)
    ∧ probe td = [true; true; false; false; false; false; false; false; false]
    ∧ action_mask example_instance
      = [false; false; true; true; true; true; true; true; false]
    ∧ action_mask td = [true; true; true; true; true; true; true; true; false].
Proof. eexists. repeat split; reflexivity. Qed.

(** ** Generation followed by reset *)

(** The instance that the reset makes of [td]. *)
Lemma reset_returns (out : TensorDict) :
  Forall (fun td => length (action_mask td) = length (probe td)) (instances out) →
  ∃ out', _reset (DPPEnv_reset (Ok out)) None = Ok out'
          ∧ instances out'
            = (fun td => mkInstance (locs td) (probe td)
                           (zip_with orb (action_mask td) (probe td)))
                <$> instances out.
Proof.
  intros Hlen. unfold _reset. cbn [DPPEnv_reset mbind result_bind].
  destruct out as [x|xs]; cbn [instances] in *.
  - apply Forall_cons in Hlen as [Hlen _]. rewrite (reset_mask_returns x Hlen).
    eexists. split; [reflexivity | done].
  - pose proof (for_each_fmap reset_mask id
      (fun td => mkInstance (locs td) (probe td)
                   (zip_with orb (action_mask td) (probe td))) xs) as Hxs.
    rewrite list_fmap_id in Hxs. rewrite Hxs.
    + eexists. split; [reflexivity | done].
    + intros td Htd. apply reset_mask_returns.
      rewrite Forall_forall in Hlen. by apply Hlen.
Qed.

(** C4 (the claim as stated fails): in the scenario of the specification,
    keepout range [0, 1), the mask after reset is not the negation of the
    probe mask: the designated cell 8 is excluded though it is no probe and
    the probe cells 0 and 1 are selectable. *)
Lemma reset_mask_differs_from_not_probe :
  num_keepout_min (super (example_env "minmax")) = 0%Z
  ∧ num_keepout_max (super (example_env "minmax")) = 1%Z
  ∧ ∃ td,
      _reset (DPPEnv_reset
                (generate_data (example_env "minmax") BShape0 (fun _ => example_draws)))
        None = Ok (Single td)
      ∧ keepout_cells (example_env "minmax") example_draws = []
      ∧ probe td !! 8 = Some false
      ∧ action_mask td !! 8 = Some false
      ∧ action_mask td ≠ negb <$> probe td.
Proof.
  split; [reflexivity|]. split; [reflexivity|].
  eexists. split; [reflexivity|]. split; [reflexivity|].
  split; [reflexivity|]. split; [reflexivity|]. discriminate.
Qed.

(** C4, amended: with the keepout range [0, 1) no keepout cell is drawn,
    and the generated mask leaves selectable exactly the cells that are
    neither probe cells nor the designated cell; after reset the same holds
    at every cell that is not a probe cell. *)
Theorem zero_keepout_mask (self : MDPPEnv) (batch_size : BatchSize)
    (rng : nat → Draws) :
  num_keepout_min (super self) = 0%Z →
  num_keepout_max (super self) = 1%Z →
  0 < size (super self) →
  (num_probes_min self < num_probes_max self)%Z →
  (∀ i, i < batch_length batch_size → valid_draws (num_cells self) (rng i)) →
  ∃ out out',
    generate_data self batch_size rng = Ok out
    ∧ _reset (DPPEnv_reset (generate_data self batch_size rng)) None = Ok out'
    ∧ length (instances out) = batch_length batch_size
    ∧ length (instances out') = batch_length batch_size
    ∧ ∀ i, i < batch_length batch_size →
        ∃ td td',
          instances out !! i = Some td
          ∧ instances out' !! i = Some td'
          ∧ num_keepout self (rng i) = 0%Z
          ∧ keepout_cells self (rng i) = []
          ∧ probe td' = probe td
          ∧ ∀ c b, probe td !! c = Some b →
              action_mask td !! c
              = Some (negb b
                      && bool_decide (Z.of_nat c ≠ designated_probe self (rng i)))
              ∧ (b = false →
                 action_mask td' !! c
                 = Some (bool_decide (Z.of_nat c ≠ designated_probe self (rng i)))).
Proof.
  intros Hkmin Hkmax Hsize Hp Hdraws.
  assert (valid_config self) as Hconf.
  { unfold valid_config. rewrite Hkmin, Hkmax. split; [done | split; [done | lia]]. }
  destruct (generated_instances self batch_size rng Hconf Hdraws)
    as (out & Hout & Hlen & Hinst).
  destruct (reset_returns out) as (out' & Hout' & Hinst').
  { apply Forall_forall. intros td [i Htd]%list_elem_of_lookup_1.
    apply Hinst in Htd as [_ ->].
    by destruct (instance_lengths self (rng i)) as [-> ->]. }
  exists out, out'. rewrite Hout. split; [done|]. split; [done|]. split; [done|].
  split; [by rewrite Hinst', length_fmap|].
  intros i Hi. assert (instances out !! i = Some (instance_of self (rng i))) as Htd
    by (by apply Hinst).
  assert (num_keepout self (rng i) = 0%Z) as Hnum.
  { unfold num_keepout. rewrite Hkmin, Hkmax.
    change (1 - 0)%Z with 1%Z. by rewrite Z.mod_1_r. }
  assert (keepout_cells self (rng i) = []) as Hnone.
  { unfold keepout_cells, slice_to. by rewrite Hnum, decide_True. }
  eexists _, _. split; [exact Htd|]. split.
  { rewrite Hinst', list_lookup_fmap, Htd. reflexivity. }
  split; [done|]. split; [done|]. split; [done|].
  intros c b Hb. cbn [action_mask probe].
  assert (c < num_cells self) as Hc.
  { apply lookup_lt_Some in Hb. by rewrite (proj2 (instance_lengths _ _)) in Hb. }
  rewrite instance_probe_lookup in Hb by (by try apply Hdraws).
  injection Hb as <-.
  assert (action_mask (instance_of self (rng i)) !! c
          = Some (negb (bool_decide (Z.of_nat c ∈ probe_cells self (rng i)))
                  && bool_decide (Z.of_nat c ≠ designated_probe self (rng i))))
    as Hmask.
  { rewrite instance_action_mask_lookup by (by try apply Hdraws).
    rewrite Hnone. f_equal.
    repeat case_bool_decide; simpl; try done;
      rewrite ?elem_of_nil in *; tauto. }
  split; [done|]. intros Hnot.
  rewrite lookup_zip_with, Hmask.
  rewrite instance_probe_lookup by (by try apply Hdraws).
  rewrite Hnot. simpl. by rewrite orb_false_r.
Qed.

Lemma zero_keepout_mask_witness :
  ∃ out out',
    generate_data (example_env "minmax") (BInt 1) (fun _ => example_draws) = Ok out
    ∧ _reset (DPPEnv_reset
                (generate_data (example_env "minmax") (BInt 1)
                   (fun _ => example_draws))) None = Ok out'
    ∧ ∃ td td',
        instances out !! 0 = Some td
        ∧ instances out' !! 0 = Some td'
        ∧ keepout_cells (example_env "minmax") example_draws = [].
Proof.
  destruct (zero_keepout_mask (example_env "minmax") (BInt 1)
              (fun _ => example_draws))
    as (out & out' & Hout & Hout' & _ & _ & Hinst).
  - reflexivity.
  - reflexivity.
  - simpl. lia.
  - simpl. lia.
  - intros i _. split; unfold is_randperm; reflexivity.
  - exists out, out'. split; [exact Hout|]. split; [exact Hout'|].
    destruct (Hinst 0) as (td & td' & Htd & Htd' & _ & Hnone & _); [simpl; lia|].
    exists td, td'. split; [exact Htd|]. split; [exact Htd'|]. exact Hnone.
Defined.


(** * Further properties of the code *)

(** ** The value of the reward *)

Lemma Qtrunc_floor (q : Q) : (0 ≤ Qnum q)%Z → Qtrunc q = Qfloor q.
Proof.
  destruct q as [n d]. simpl. intros Hn. unfold Qtrunc. simpl.
  apply Z.quot_div_nonneg; lia.
Qed.

Lemma Qtrunc_ceiling (q : Q) : (Qnum q < 0)%Z → Qtrunc q = Qceiling q.
Proof.
  destruct q as [n d]. simpl. intros Hn. unfold Qtrunc, Qceiling. simpl.
  rewrite <- (Z.opp_involutive n) at 1. rewrite Z.quot_opp_l by lia.
  f_equal. apply Z.quot_div_nonneg; lia.
Qed.

Lemma Qtrunc_sign (q : Q) :
  ((0 ≤ Qnum q → 0 ≤ Qtrunc q) ∧ (Qnum q < 0 → Qtrunc q ≤ 0))%Z.
Proof.
  unfold Qtrunc. split; intros Hn.
  - apply Z.quot_pos; lia.
  - rewrite <- (Z.opp_involutive (Qnum q)), Z.quot_opp_l by lia.
    assert (0 ≤ - Qnum q ÷ Z.pos (Qden q))%Z by (apply Z.quot_pos; lia). lia.
Qed.

(** The conversion to int64 keeps the order of the scores. *)
Lemma Qtrunc_mono (a b : Q) : (a <= b)%Q → (Qtrunc a ≤ Qtrunc b)%Z.
Proof.
  intros Hab.
  destruct (Z.le_gt_cases 0 (Qnum a)) as [Ha|Ha],
           (Z.le_gt_cases 0 (Qnum b)) as [Hb|Hb].
  - rewrite !Qtrunc_floor by done. by apply Qfloor_resp_le.
  - unfold Qle in Hab. nia.
  - pose proof (Qtrunc_sign a) as [_ Ha']. pose proof (Qtrunc_sign b) as [Hb' _].
    specialize (Ha' Ha). specialize (Hb' Hb). lia.
  - rewrite !Qtrunc_ceiling by done. by apply Qceiling_resp_le.
Qed.

Lemma Qtrunc_min (a b : Q) : Qtrunc (Qmin a b) = Z.min (Qtrunc a) (Qtrunc b).
Proof.
  unfold Qmin, GenericMinMax.gmin. destruct (a ?= b)%Q eqn:Hcmp.
  - apply Qeq_alt in Hcmp.
    assert (Qtrunc a = Qtrunc b) as Heq.
    { apply Z.le_antisymm; apply Qtrunc_mono; rewrite Hcmp; apply Qle_refl. }
    lia.
  - apply Qlt_alt, Qlt_le_weak, Qtrunc_mono in Hcmp. lia.
  - apply Qgt_alt, Qlt_le_weak, Qtrunc_mono in Hcmp. lia.
Qed.

Lemma list_min_Qtrunc (q : Q) (qs : list Q) :
  list_min (Qtrunc q) (Qtrunc <$> qs) = Qtrunc (Qlist_min q qs).
Proof.
  unfold list_min, Qlist_min. revert q.
  induction qs as [|q' qs IH]; intros q; simpl; [done|].
  by rewrite <- Qtrunc_min, IH.
Qed.

Lemma nonzero_from_elem (c z : Z) (mask : list bool) :
  z ∈ nonzero_from c mask ↔ ∃ i : nat, z = (c + Z.of_nat i)%Z ∧ mask !! i = Some true.
Proof.
  revert c. induction mask as [|b mask IH]; intros c; cbn [nonzero_from].
  - rewrite elem_of_nil. split; [done|]. by intros (i & _ & Hi).
  - assert (z ∈ nonzero_from (c + 1) mask
            ↔ ∃ i : nat, z = (c + Z.of_nat (S i))%Z ∧ mask !! i = Some true) as IH'.
    { rewrite IH. split; intros (i & -> & Hi); exists i; (split; [lia | done]). }
    destruct b; rewrite ?elem_of_cons, IH'.
    + split.
      * intros [->|(i & -> & Hi)]; [exists 0 | exists (S i)]; (split; [lia | done]).
      * intros ([|i] & -> & Hi); [left; lia | right; eauto].
    + split.
      * intros (i & -> & Hi). by exists (S i).
      * intros ([|i] & -> & Hi); [done | eauto].
Qed.

(** X1: under "minmax", on an instance with at least two probe cells
    whose simulator scores truncate into the range of int64, the reward is
    returned and is the smallest of the simulator scores at the probe
    cells, converted to an integer by truncation toward zero. *)
Theorem single_env_reward_minmax_value (self : MDPPEnv) (td : Instance)
    (actions : list Z) :
  reward_type self = "minmax" →
  2 ≤ count_true (probe td) →
  (∀ c : nat, probe td !! c = Some true →
     (- 2 ^ 63 ≤ Qtrunc (_decap_simulator (super self) (Z.of_nat c) actions)
      < 2 ^ 63)%Z) →
  ∃ q qs,
    (fun p => _decap_simulator (super self) p actions) <$> nonzero (probe td)
    = q :: qs
    ∧ _single_env_reward self td actions = Ok (Long0 (Qtrunc (Qlist_min q qs))).
Proof.
  intros Hrt Hk Hrange.
  destruct (single_env_reward_minmax self td actions Hrt Hk) as (z & zs & Hz & ->).
  assert ((fun p => to_int64 (_decap_simulator (super self) p actions))
            <$> nonzero (probe td)
          = Qtrunc <$> ((fun p => _decap_simulator (super self) p actions)
                          <$> nonzero (probe td))) as Heq.
  { rewrite <- list_fmap_compose. apply list_fmap_ext.
    intros i p Hp%list_elem_of_lookup_2.
    apply nonzero_from_elem in Hp as (c & -> & Hc). simpl.
    unfold to_int64. cbv zeta. by rewrite decide_True by (by apply Hrange). }
  rewrite Heq in Hz.
  destruct ((fun p => _decap_simulator (super self) p actions) <$> nonzero (probe td))
    as [|q qs]; [discriminate|].
  cbn [fmap list_fmap] in Hz. injection Hz as <- <-.
  exists q, qs. split; [done|].
  change (list_fmap Q Z Qtrunc qs) with (Qtrunc <$> qs).
  by rewrite list_min_Qtrunc.
Qed.

Lemma single_env_reward_minmax_value_witness :
  ∃ q qs,
    _single_env_reward (example_env "minmax") example_instance [7]%Z
    = Ok (Long0 (Qtrunc (Qlist_min q qs))).
Proof.
  destruct (single_env_reward_minmax_value (example_env "minmax") example_instance
              [7]%Z) as (q & qs & _ & H).
  - reflexivity.
  - vm_compute. lia.
  - intros [|[|c]] Hc; [vm_compute; split; [discriminate | reflexivity].. |].
    do 7 (destruct c as [|c]; [discriminate Hc|]). discriminate Hc.
  - exists q, qs. exact H.
Defined.

(** X2: the reward of an instance consults the simulator at the probe
    cells only: two environments whose simulators agree there, and that
    are otherwise the same, give the same reward or the same exception. *)
Theorem single_env_reward_probes_only (self : MDPPEnv) (sim' : Z → list Z → Q)
    (td : Instance) (actions : list Z) :
  (∀ c : nat, probe td !! c = Some true →
     _decap_simulator (super self) (Z.of_nat c) actions = sim' (Z.of_nat c) actions) →
  _single_env_reward self td actions
  = _single_env_reward
      (mkMDPPEnv
         (mkDPPEnv (size (super self)) (num_keepout_min (super self))
            (num_keepout_max (super self)) sim')
         (num_probes_min self) (num_probes_max self) (reward_type self))
      td actions.
Proof.
  intros Hsim. rewrite !single_env_reward_unfold. cbn [super _decap_simulator reward_type].
  assert ((fun p => to_int64 (_decap_simulator (super self) p actions))
            <$> nonzero (probe td)
          = (fun p => to_int64 (sim' p actions)) <$> nonzero (probe td)) as Heq.
  { apply list_fmap_ext. intros i p Hp%list_elem_of_lookup_2.
    apply nonzero_from_elem in Hp as (c & -> & Hc). simpl. f_equal. by apply Hsim. }
  destruct (nonzero (probe td)) as [|z [|z' rows]]; [| done |]; cbn zeta; by rewrite Heq.
Qed.

Lemma single_env_reward_probes_only_witness :
  _single_env_reward (example_env "minmax") example_instance [7]%Z
  = _single_env_reward
      (mkMDPPEnv (mkDPPEnv 3 0 1
                    (fun p a => if decide (p = 0)%Z then (4 # 10)%Q
                                else if decide (p = 1)%Z then (9 # 10)%Q
                                else 100%Q)) 2 3 "minmax")
      example_instance [7]%Z.
Proof.
  apply (single_env_reward_probes_only (example_env "minmax")
           (fun p a => if decide (p = 0)%Z then (4 # 10)%Q
                       else if decide (p = 1)%Z then (9 # 10)%Q
                       else 100%Q) example_instance [7]%Z).
  intros [|[|c]] Hc; [reflexivity | reflexivity |].
  do 7 (destruct c as [|c]; [discriminate Hc|]). discriminate Hc.
Defined.

(** ** The reward of a batch *)

(** X3: on an empty batch, or without any action sequence, [get_reward]
    raises: there is nothing to stack. *)
Theorem get_reward_empty_batch_raises (self : MDPPEnv) (tds : list Instance)
    (actions : list (list Z)) :
  tds = [] ∨ actions = [] →
  get_reward self (Batched tds actions) = Raise RuntimeError.
Proof.
  intros [-> | ->]; unfold get_reward; [done|].
  by destruct tds.
Qed.

Lemma get_reward_empty_batch_raises_witness :
  get_reward (example_env "minmax") (Batched [example_instance] [])
  = Raise RuntimeError.
Proof.
  apply (get_reward_empty_batch_raises (example_env "minmax") [example_instance] []).
  right. reflexivity.
Defined.

Lemma zip_app_r_surplus {A B : Type} (l : list A) (k k' : list B) :
  length l ≤ length k → zip l (k ++ k') = zip l k.
Proof.
  revert k. induction l as [|x l IH]; intros [|y k] Hlen; simpl in *;
    [done | done | lia |].
  f_equal. apply IH. lia.
Qed.

Lemma zip_app_l_surplus {A B : Type} (l l' : list A) (k : list B) :
  length k ≤ length l → zip (l ++ l') k = zip l k.
Proof.
  revert k. induction l as [|x l IH]; intros [|y k] Hlen; simpl in *;
    [by destruct l' | lia | done |].
  f_equal. apply IH. lia.
Qed.

(** X4: [get_reward] pairs the instances with the action sequences in
    order and stops at the shorter of the two: surplus action sequences
    and surplus instances are not looked at. *)
Theorem get_reward_ignores_surplus (self : MDPPEnv) (tds tds' : list Instance)
    (actions actions' : list (list Z)) :
  length actions = length tds →
  get_reward self (Batched tds (actions ++ actions'))
  = get_reward self (Batched tds actions)
  ∧ get_reward self (Batched (tds ++ tds') actions)
    = get_reward self (Batched tds actions).
Proof.
  intros Hlen. unfold get_reward. split.
  - by rewrite zip_app_r_surplus by lia.
  - by rewrite zip_app_l_surplus by lia.
Qed.

Lemma get_reward_ignores_surplus_witness :
  get_reward (example_env "minmax")
    (Batched [example_instance] ([[7]] ++ [[1; 2]; [3]])%Z)
  = get_reward (example_env "minmax") (Batched [example_instance] [[7]]%Z).
Proof.
  destruct (get_reward_ignores_surplus (example_env "minmax") [example_instance]
              [one_probe_instance] [[7]]%Z [[1; 2]; [3]]%Z) as [H _].
  - reflexivity.
  - exact H.
Defined.

Lemma for_each_raises {A B : Type} (f : A → result B) (l : list A) (i : nat) (x : A) :
  l !! i = Some x → raises (f x) → raises (for_each f l).
Proof.
  revert i. induction l as [|y l IH]; intros i Hi Hx; [done|].
  cbn [for_each]. destruct (f y) as [b|e] eqn:Hy; [|by eexists].
  destruct i as [|i].
  - injection Hi as ->. destruct Hx as [e He]. congruence.
  - destruct (IH i Hi Hx) as [e ->]. by eexists.
Qed.

(** X5: one instance whose reward raises makes the reward of the whole
    batch raise; so does, in particular, one instance with fewer than two
    probe cells. *)
Theorem get_reward_raises_with_instance (self : MDPPEnv) (tds : list Instance)
    (actions : list (list Z)) (i : nat) (td : Instance) (a : list Z) :
  tds !! i = Some td → actions !! i = Some a →
  raises (_single_env_reward self td a) ∨ count_true (probe td) ≤ 1 →
  raises (get_reward self (Batched tds actions)).
Proof.
  intros Htd Ha Hbad.
  assert (raises (_single_env_reward self td a)) as Hraise.
  { destruct Hbad as [H|H]; [done|].
    rewrite single_env_reward_unfold, <- nonzero_length in *. unfold raises.
    destruct (nonzero (probe td)) as [|z [|z' rows]]; simpl in *; [| eauto | lia].
    case_bool_decide; eauto. }
  unfold get_reward.
  destruct (for_each_raises
              (fun '(td_single, action) => _single_env_reward self td_single action)
              (zip tds actions) i (td, a)) as [e ->]; [| done | by eexists].
  rewrite lookup_zip_with, Htd. simpl. by rewrite Ha.
Qed.

Lemma get_reward_raises_with_instance_witness :
  raises (get_reward (example_env "minmax")
            (Batched [example_instance; one_probe_instance] [[7]; [7]]%Z)).
Proof.
  apply (get_reward_raises_with_instance (example_env "minmax")
           [example_instance; one_probe_instance] [[7]; [7]]%Z 1
           one_probe_instance [7]%Z).
  - reflexivity.
  - reflexivity.
  - right. vm_compute. lia.
Defined.

Lemma for_each_app {A B : Type} (f : A → result B) (l1 l2 : list A)
    (ys1 ys2 : list B) :
  for_each f l1 = Ok ys1 → for_each f l2 = Ok ys2 →
  for_each f (l1 ++ l2) = Ok (ys1 ++ ys2).
Proof.
  rewrite !for_each_Forall2. apply Forall2_app.
Qed.

Lemma stack_Long1_inv (ts : list LongTensor) (zs : list Z) :
  stack ts = Ok (Long1 zs) → ts = Long0 <$> zs ∧ ts ≠ [].
Proof.
  unfold stack. destruct ts as [|t ts]; [done|].
  set (g := fun t : LongTensor => match t with
                                  | Long0 z => Ok z
                                  | Long1 _ => Raise RuntimeError
                                  end).
  destruct (for_each g (t :: ts)) as [zs'|e] eqn:Hfe; [|done].
  cbn [mbind result_bind]. intros [= <-]. split; [|done].
  apply for_each_Forall2 in Hfe. revert Hfe. generalize (t :: ts). clear t ts.
  intros ts Hfe. induction Hfe as [|t z ts zs Hz _ IH]; [done|].
  cbn [fmap list_fmap]. f_equal; [|done]. subst g. by destruct t; simplify_eq.
Qed.

(** X6: instances are rewarded one by one: when two batches get their
    rewards, the batch made of the one followed by the other gets the
    rewards of the one followed by those of the other. *)
Theorem get_reward_app (self : MDPPEnv) (tds1 tds2 : list Instance)
    (actions1 actions2 : list (list Z)) (rs1 rs2 : list Z) :
  length actions1 = length tds1 →
  get_reward self (Batched tds1 actions1) = Ok (Long1 rs1) →
  get_reward self (Batched tds2 actions2) = Ok (Long1 rs2) →
  get_reward self (Batched (tds1 ++ tds2) (actions1 ++ actions2))
  = Ok (Long1 (rs1 ++ rs2)).
Proof.
  intros Hlen. unfold get_reward.
  set (f := fun '(td_single, action) => _single_env_reward self td_single action).
  intros (ts1 & Hf1 & [-> Hne1]%stack_Long1_inv)%bind_Ok.
  intros (ts2 & Hf2 & [-> Hne2]%stack_Long1_inv)%bind_Ok.
  rewrite zip_with_app by done.
  rewrite (for_each_app f _ _ _ _ Hf1 Hf2). cbn [mbind result_bind].
  rewrite <- fmap_app. apply stack_Long0.
  intros [-> _]%app_eq_nil. done.
Qed.

Lemma get_reward_app_witness :
  get_reward (example_env "minmax")
    (Batched ([example_instance] ++ [example_instance; example_instance])
       ([[7]] ++ [[1]; [2]])%Z)
  = Ok (Long1 ([0] ++ [0; 0])%Z).
Proof.
  apply (get_reward_app (example_env "minmax") [example_instance]
           [example_instance; example_instance] [[7]]%Z [[1]; [2]]%Z
           [0]%Z [0; 0]%Z); reflexivity.
Defined.

(** ** Edge cases of the generation *)

Lemma randint_Ok_inv (low high : Z) (us xs : list Z) :
  randint low high us = Ok xs → (low < high)%Z.
Proof. unfold randint. by case_decide. Qed.

(** X7: the generator raises when one of its sampler ranges is empty: a
    grid of size 0, [num_probes_min] not below [num_probes_max], or
    [num_keepout_min] not below [num_keepout_max]; equal bounds raise. *)
Theorem generate_data_empty_range_raises (self : MDPPEnv) (batch_size : BatchSize)
    (rng : nat → Draws) :
  ¬ valid_config self → raises (generate_data self batch_size rng).
Proof.
  intros Hbad. destruct (generate_data self batch_size rng) as [out|e] eqn:Hgen;
    [|by eexists].
  exfalso. apply Hbad. unfold generate_data in Hgen. cbv zeta in Hgen.
  apply bind_Ok in Hgen as (p & Hp%randint_Ok_inv & Hgen).
  apply bind_Ok in Hgen as (av & _ & Hgen).
  apply bind_Ok in Hgen as (np & Hnp%randint_Ok_inv & Hgen).
  apply bind_Ok in Hgen as (rows & _ & Hgen).
  apply bind_Ok in Hgen as (nk & Hnk%randint_Ok_inv & _).
  split; [nia | done].
Qed.

Lemma generate_data_empty_range_raises_witness :
  raises (generate_data empty_range_env (BInt 4) (fun _ => example_draws)).
Proof.
  apply (generate_data_empty_range_raises empty_range_env (BInt 4)
           (fun _ => example_draws)).
  unfold valid_config. simpl. lia.
Defined.

(** X8: the result keeps the batch shape of the request: a single
    instance for the empty shape, and a batch of [b] instances for the int
    [b] and for the shape [[b]], also when [b] is 1 or 0. *)
Theorem generate_data_batch_shape (self : MDPPEnv) (batch_size : BatchSize)
    (rng : nat → Draws) :
  valid_config self →
  (∀ i, i < batch_length batch_size → valid_draws (num_cells self) (rng i)) →
  match batch_size with
  | BShape0 => generate_data self batch_size rng = Ok (Single (instance_of self (rng 0)))
  | BInt b | BShape1 b =>
      ∃ tds, generate_data self batch_size rng = Ok (Batch tds) ∧ length tds = b
  end.
Proof.
  intros Hconf Hdraws. rewrite generate_data_returns by done.
  destruct batch_size as [b| |b]; cbn [pack batch_length]; [| done |];
    (eexists; split; [reflexivity|]); by rewrite !length_fmap, length_seq.
Qed.

Lemma generate_data_batch_shape_witness :
  ∃ tds,
    generate_data (example_env "minmax") (BInt 1) (fun _ => example_draws)
    = Ok (Batch tds) ∧ length tds = 1.
Proof.
  apply (generate_data_batch_shape (example_env "minmax") (BInt 1)
           (fun _ => example_draws)).
  - unfold valid_config. simpl. lia.
  - intros i _. split; unfold is_randperm; reflexivity.
Defined.

(** X9: in every generated instance the mask is false, not selectable, at
    every probe cell. *)
Theorem generated_mask_excludes_probes (self : MDPPEnv) (batch_size : BatchSize)
    (rng : nat → Draws) :
  valid_config self →
  (∀ i, i < batch_length batch_size → valid_draws (num_cells self) (rng i)) →
  ∃ out,
    generate_data self batch_size rng = Ok out
    ∧ ∀ td c, td ∈ instances out →
        probe td !! c = Some true → action_mask td !! c = Some false.
Proof.
  intros Hconf Hdraws.
  destruct (generated_instances self batch_size rng Hconf Hdraws)
    as (out & Hout & Hlen & Hinst).
  destruct Hconf as (Hsize & _). exists out. split; [done|].
  intros td c [i [Hi ->]%Hinst]%list_elem_of_lookup_1 Hc.
  assert (c < num_cells self) as Hlt.
  { apply lookup_lt_Some in Hc.
    by rewrite (proj2 (instance_lengths self (rng i))) in Hc. }
  rewrite instance_probe_lookup in Hc by auto.
  injection Hc as Hc%bool_decide_eq_true_1.
  rewrite instance_action_mask_lookup by auto.
  rewrite bool_decide_eq_false_2; [done|]. tauto.
Qed.

Lemma generated_mask_excludes_probes_witness :
  ∃ out,
    generate_data keepout_env (BInt 2) (fun _ => example_draws) = Ok out
    ∧ ∀ td, td ∈ instances out →
        probe td !! 1 = Some true → action_mask td !! 1 = Some false.
Proof.
  destruct (generated_mask_excludes_probes keepout_env (BInt 2)
              (fun _ => example_draws)) as (out & Hout & H).
  - unfold valid_config. simpl. lia.
  - intros i _. split; unfold is_randperm; reflexivity.
  - exists out. split; [exact Hout|]. intros td. apply H.
Defined.

(** *** The number of probe cells, whatever the sampled number *)

Lemma slice_to_length {A : Type} (l : list A) (stop : Z) :
  length (slice_to l stop)
  = if decide (0 ≤ stop)%Z then Z.to_nat stop `min` length l
    else length l - Z.to_nat (- stop).
Proof.
  unfold slice_to. case_decide; rewrite length_take; lia.
Qed.

Lemma instance_count_probe_cells (self : MDPPEnv) (r : Draws) :
  valid_draws (num_cells self) r →
  count_true (probe (instance_of self r)) = length (probe_cells self r).
Proof.
  intros [Hp _]. cbn [instance_of probe].
  rewrite count_true_scatter, count_true_replicate_false; [done | |].
  - by apply (randperm_NoDup (num_cells self)).
  - eapply Forall_impl; [by apply randperm_in_range|].
    intros j Hj. cbn beta in Hj. split; [lia|].
    apply lookup_replicate_2. lia.
Qed.

(** X10: an instance has [min(num_probe, N)] probe cells when the sampled
    number is not negative, and [max(N + num_probe, 0)] when it is
    negative, the slice then dropping cells from the end of the
    permutation. *)
Theorem probe_count_formula (self : MDPPEnv) (batch_size : BatchSize)
    (rng : nat → Draws) :
  valid_config self →
  (∀ i, i < batch_length batch_size → valid_draws (num_cells self) (rng i)) →
  ∃ out,
    generate_data self batch_size rng = Ok out
    ∧ ∀ i td, instances out !! i = Some td →
        Z.of_nat (count_true (probe td))
        = if decide (0 ≤ num_probe self (rng i))%Z
          then Z.min (num_probe self (rng i)) (Z.of_nat (num_cells self))
          else Z.max (Z.of_nat (num_cells self) + num_probe self (rng i)) 0.
Proof.
  intros Hconf Hdraws.
  destruct (generated_instances self batch_size rng Hconf Hdraws)
    as (out & Hout & Hlen & Hinst).
  exists out. split; [done|]. intros i td [Hi ->]%Hinst.
  rewrite instance_count_probe_cells by auto.
  unfold probe_cells. rewrite slice_to_length.
  assert (length (perm_probe (rng i)) = num_cells self) as ->.
  { destruct (Hdraws i Hi) as [Hp _]. rewrite Hp, length_seqZ. lia. }
  case_decide; lia.
Qed.

Lemma probe_count_formula_witness :
  ∃ out,
    generate_data negative_env BShape0 (fun _ => example_draws) = Ok out
    ∧ ∀ td, instances out !! 0 = Some td → count_true (probe td) = 8.
Proof.
  destruct (probe_count_formula negative_env BShape0 (fun _ => example_draws))
    as (out & Hout & H).
  - unfold valid_config. simpl. lia.
  - intros i _. split; unfold is_randperm; reflexivity.
  - exists out. split; [exact Hout|]. intros td Htd.
    apply Nat2Z.inj. rewrite (H 0 td Htd). reflexivity.
Defined.

(** X11: when the least number of probes is the number of cells or more,
    every cell of every generated instance is a probe cell and no cell is
    selectable. *)
Theorem crowded_grid_all_probes (self : MDPPEnv) (batch_size : BatchSize)
    (rng : nat → Draws) :
  valid_config self →
  (∀ i, i < batch_length batch_size → valid_draws (num_cells self) (rng i)) →
  (Z.of_nat (num_cells self) ≤ num_probes_min self)%Z →
  ∃ out,
    generate_data self batch_size rng = Ok out
    ∧ ∀ td, td ∈ instances out →
        probe td = replicate (num_cells self) true
        ∧ action_mask td = replicate (num_cells self) false.
Proof.
  intros Hconf Hdraws Hmany.
  destruct (generated_instances self batch_size rng Hconf Hdraws)
    as (out & Hout & Hlen & Hinst).
  destruct Hconf as (Hsize & Hp & _). exists out. split; [done|].
  intros td [i [Hi ->]%Hinst]%list_elem_of_lookup_1.
  pose proof (Hdraws i Hi) as Hvalid. destruct (Hvalid) as [Hperm _].
  pose proof (num_probe_in_range self (rng i) Hp) as Hnum.
  assert (probe_cells self (rng i) = perm_probe (rng i)) as Hall.
  { unfold probe_cells, slice_to. rewrite decide_True by lia.
    apply take_ge. rewrite Hperm, length_seqZ. lia. }
  assert (∀ c, c < num_cells self → Z.of_nat c ∈ probe_cells self (rng i)) as Hin.
  { intros c Hc. rewrite Hall, Hperm, elem_of_seqZ. lia. }
  destruct (instance_lengths self (rng i)) as [Hlm Hlp].
  split; apply list_eq; intros c; destruct (decide (c < num_cells self)) as [Hc|Hc].
  - rewrite instance_probe_lookup, lookup_replicate_2 by done.
    by rewrite bool_decide_eq_true_2 by auto.
  - by rewrite !lookup_ge_None_2 by (rewrite ?length_replicate; lia).
  - rewrite instance_action_mask_lookup, lookup_replicate_2 by done.
    rewrite bool_decide_eq_false_2; [done|]. intros (_ & Hnot & _). by apply Hnot, Hin.
  - by rewrite !lookup_ge_None_2 by (rewrite ?length_replicate; lia).
Qed.

Lemma crowded_grid_all_probes_witness :
  ∃ out,
    generate_data crowded_env (BInt 2) (fun _ => example_draws) = Ok out
    ∧ ∀ td, td ∈ instances out →
        probe td = replicate 9 true ∧ action_mask td = replicate 9 false.
Proof.
  destruct (crowded_grid_all_probes crowded_env (BInt 2) (fun _ => example_draws))
    as (out & Hout & H).
  - unfold valid_config. simpl. lia.
  - intros i _. split; unfold is_randperm; reflexivity.
  - vm_compute. discriminate.
  - exists out. split; [exact Hout | exact H].
Defined.

(** ** Locations and the declared schema *)

Lemma bind_rows_length {A B : Type} (f : A → list B) (l : list A) (n : nat) :
  (∀ x, x ∈ l → length (f x) = n) → length (l ≫= f) = length l * n.
Proof.
  induction l as [|x l IH]; intros Hrow; [done|].
  rewrite bind_cons, length_app, IH, Hrow; [simpl; lia | | ].
  - apply elem_of_cons. by left.
  - intros y Hy. apply Hrow, elem_of_cons. by right.
Qed.

Lemma bind_rows_lookup {A B : Type} (f : A → list B) (l : list A) (n i j : nat)
    (x : A) :
  (∀ x, x ∈ l → length (f x) = n) →
  l !! i = Some x → j < n → (l ≫= f) !! (i * n + j) = f x !! j.
Proof.
  revert i. induction l as [|y l IH]; intros i Hrow Hi Hj; [done|].
  assert (length (f y) = n) as Hy by (apply Hrow, elem_of_cons; by left).
  rewrite bind_cons. destruct i as [|i].
  - injection Hi as ->. rewrite lookup_app_l by (simpl; lia). done.
  - rewrite lookup_app_r by (simpl; lia).
    replace (S i * n + j - length (f y)) with (i * n + j) by (simpl; lia).
    apply IH; [|done..]. intros z Hz. apply Hrow, elem_of_cons. by right.
Qed.

Lemma bind_singleton_fmap {A B : Type} (g : A → B) (l : list A) :
  (l ≫= fun x => [g x]) = g <$> l.
Proof. induction l as [|x l IH]; [done|]. by rewrite bind_cons, IH. Qed.

Lemma grid_locs_rows (m n : nat) :
  grid_locs m n
  = seq 0 m ≫= fun i =>
      (fun j =>
         (float32_div (float32_of_int (Z.of_nat i)) (float32_of_int (Z.of_nat m)),
          float32_div (float32_of_int (Z.of_nat j)) (float32_of_int (Z.of_nat n))))
        <$> seq 0 n.
Proof.
  unfold grid_locs. apply list_bind_ext; [|done]. intros i.
  apply bind_singleton_fmap.
Qed.

Lemma grid_locs_length (m n : nat) : length (grid_locs m n) = m * n.
Proof.
  rewrite grid_locs_rows, (bind_rows_length _ _ n), length_seq; [done|].
  intros i _. by rewrite length_fmap, length_seq.
Qed.

Lemma grid_locs_lookup (m n i j : nat) :
  i < m → j < n →
  grid_locs m n !! (i * n + j)
  = Some (float32_div (float32_of_int (Z.of_nat i)) (float32_of_int (Z.of_nat m)),
          float32_div (float32_of_int (Z.of_nat j)) (float32_of_int (Z.of_nat n))).
Proof.
  intros Hi Hj. rewrite grid_locs_rows.
  rewrite (bind_rows_lookup _ _ n i j i); [| | by apply lookup_seq | done].
  - by rewrite list_lookup_fmap, (lookup_seq_lt _ _ _ Hj).
  - intros i' _. by rewrite length_fmap, length_seq.
Qed.

(** *** Rounding *)

Lemma round_half_even_cases (a b : Z) :
  (0 < b)%Z →
  (round_half_even a b = a / b ∧ 2 * (a mod b) ≤ b
   ∨ round_half_even a b = a / b + 1 ∧ b ≤ 2 * (a mod b))%Z.
Proof.
  intros Hb. unfold round_half_even.
  destruct (Z.ltb_spec (2 * (a mod b))%Z b); [left; lia|].
  destruct (Z.ltb_spec b (2 * (a mod b))%Z); [right; lia|].
  destruct (Z.even (a / b)%Z); [left | right]; lia.
Qed.

Lemma round_half_even_upper (a b K : Z) :
  (0 < b)%Z → (a ≤ K * b)%Z → (round_half_even a b ≤ K)%Z.
Proof.
  intros Hb Ha. pose proof (Z.div_mod a b ltac:(lia)) as Hdm.
  pose proof (Z.mod_pos_bound a b Hb) as Hr.
  destruct (round_half_even_cases a b Hb) as [[-> _]|[-> Hhalf]]; nia.
Qed.

Lemma round_half_even_lower (a b K : Z) :
  (0 < b)%Z → (K * b ≤ a)%Z → (K ≤ round_half_even a b)%Z.
Proof.
  intros Hb Ha. pose proof (Z.div_mod a b ltac:(lia)) as Hdm.
  pose proof (Z.mod_pos_bound a b Hb) as Hr.
  destruct (round_half_even_cases a b Hb) as [[-> _]|[-> Hhalf]]; nia.
Qed.

Lemma round_half_even_mono (a a' b : Z) :
  (0 < b)%Z → (a ≤ a')%Z → (round_half_even a b ≤ round_half_even a' b)%Z.
Proof.
  intros Hb Ha.
  pose proof (Z.div_mod a b ltac:(lia)) as Hdm.
  pose proof (Z.div_mod a' b ltac:(lia)) as Hdm'.
  pose proof (Z.mod_pos_bound a b Hb) as Hr.
  pose proof (Z.mod_pos_bound a' b Hb) as Hr'.
  assert (a / b ≤ a' / b)%Z as Hd by (by apply Z.div_le_mono).
  destruct (Z.eq_dec (a / b)%Z (a' / b)%Z) as [Heq|Hne].
  - assert (a mod b ≤ a' mod b)%Z as Hrr by nia.
    unfold round_half_even. rewrite <- Heq.
    destruct (Z.ltb_spec (2 * (a mod b))%Z b), (Z.ltb_spec (2 * (a' mod b))%Z b),
      (Z.ltb_spec b (2 * (a mod b))%Z), (Z.ltb_spec b (2 * (a' mod b))%Z);
      destruct (Z.even (a / b)%Z); lia.
  - destruct (round_half_even_cases a b Hb) as [[-> _]|[-> _]],
      (round_half_even_cases a' b Hb) as [[-> _]|[-> _]]; lia.
Qed.

Lemma float32_of_int_small (i : Z) :
  (0 ≤ i < 2 ^ 24)%Z → float32_of_int i = i.
Proof.
  intros Hi. unfold float32_of_int. rewrite Z.abs_eq by lia.
  destruct (decide (i = 0)%Z) as [->|Hne]; [done|].
  assert (Z.log2 i < 24)%Z by (apply Z.log2_lt_pow2; lia).
  rewrite Z.max_l by lia. rewrite Z.pow_0_r, Z.sgn_pos by lia.
  unfold round_half_even. rewrite Z.mod_1_r, Z.div_1_r. simpl. lia.
Qed.

Lemma float32_of_int_bounds (i : Z) :
  (0 < i)%Z →
  let t := Z.max 0 (Z.log2 i - 23) in
  (float32_of_int i = round_half_even i (2 ^ t) * 2 ^ t
   ∧ 2 ^ Z.log2 i ≤ float32_of_int i ∧ float32_of_int i ≤ 2 ^ (Z.log2 i + 1))%Z.
Proof.
  intros Hi t. pose proof (Z.log2_spec i Hi) as [Hlo Hhi].
  pose proof (Z.log2_nonneg i) as Hl.
  assert (0 < 2 ^ t)%Z as Ht by (apply Z.pow_pos_nonneg; lia).
  assert (float32_of_int i = round_half_even i (2 ^ t) * 2 ^ t)%Z as Heq.
  { unfold float32_of_int. rewrite Z.abs_eq, Z.sgn_pos by lia. fold t. lia. }
  rewrite Heq. split; [done|].
  assert (2 ^ Z.log2 i = 2 ^ (Z.log2 i - t) * 2 ^ t)%Z as Hlo'
    by (rewrite <- Z.pow_add_r by lia; f_equal; lia).
  assert (2 ^ (Z.succ (Z.log2 i)) = 2 ^ (Z.log2 i + 1 - t) * 2 ^ t)%Z as Hhi'
    by (rewrite <- Z.pow_add_r by lia; f_equal; lia).
  replace (Z.log2 i + 1)%Z with (Z.succ (Z.log2 i)) by lia.
  split.
  - rewrite Hlo'. apply Z.mul_le_mono_nonneg_r; [lia|].
    apply round_half_even_lower; lia.
  - rewrite Hhi'. apply Z.mul_le_mono_nonneg_r; [lia|].
    apply round_half_even_upper; lia.
Qed.

(** The conversion of the indices keeps their order. *)
Lemma float32_of_int_mono (i m : Z) :
  (0 ≤ i ≤ m)%Z → (0 ≤ float32_of_int i ≤ float32_of_int m)%Z.
Proof.
  intros [Hi Him].
  destruct (decide (i = 0)%Z) as [->|Hne].
  - split; [done|]. change (float32_of_int 0%Z) with 0%Z.
    destruct (decide (m = 0)%Z) as [->|Hm]; [done|].
    pose proof (float32_of_int_bounds m ltac:(lia)) as (_ & Hlo & _).
    pose proof (Z.pow_pos_nonneg 2%Z (Z.log2 m) ltac:(lia) (Z.log2_nonneg m)). lia.
  - pose proof (float32_of_int_bounds i ltac:(lia)) as (Hfi & Hlo & Hhi).
    pose proof (float32_of_int_bounds m ltac:(lia)) as (Hfm & Hlo' & Hhi').
    pose proof (Z.pow_pos_nonneg 2%Z (Z.log2 i) ltac:(lia) (Z.log2_nonneg i)).
    split; [lia|].
    assert (Z.log2 i ≤ Z.log2 m)%Z as Hlog by (by apply Z.log2_le_mono).
    destruct (decide (Z.log2 i = Z.log2 m)) as [Heq|Hlt].
    + cbv zeta in Hfi, Hfm. rewrite Hfi, Hfm, Heq.
      apply Z.mul_le_mono_nonneg_r.
      * apply Z.pow_nonneg. lia.
      * apply round_half_even_mono; [|lia]. apply Z.pow_pos_nonneg; lia.
    + etrans; [exact Hhi|]. etrans; [|exact Hlo'].
      apply Z.pow_le_mono_r; lia.
Qed.

(** A quotient of two float32 values in their order lies in [0, 1]. *)
Lemma float32_div_unit (a b : Z) :
  (0 ≤ a ≤ b)%Z → (0 < b)%Z → (0 <= float32_div a b ∧ float32_div a b <= 1)%Q.
Proof.
  intros [Ha Hab] Hb. unfold float32_div.
  destruct (decide (0 < a ∧ 0 < b)%Z) as [[Ha' _]|_]; [|done].
  cbv zeta.
  assert (binade a b ≤ 0)%Z as He.
  { unfold binade. pose proof (Z.log2_le_mono a b Hab).
    destruct (_ <? _)%Z; lia. }
  set (s := (23 - binade a b)%Z).
  rewrite (Z.max_r 0 s), (Z.max_l 0 (- s)) by lia.
  rewrite Z.pow_0_r, !Z.mul_1_r.
  assert (0 < 2 ^ s)%Z as Hs by (apply Z.pow_pos_nonneg; lia).
  pose proof (round_half_even_lower (a * 2 ^ s)%Z b 0%Z Hb ltac:(nia)) as Hlo.
  pose proof (round_half_even_upper (a * 2 ^ s)%Z b (2 ^ s)%Z Hb ltac:(nia)) as Hhi.
  rewrite Qred_correct. unfold Qle. simpl. rewrite Z2Pos.id by done. lia.
Qed.

Lemma grid_locs_elem (m n : nat) (x y : Q) :
  (x, y) ∈ grid_locs m n → (0 <= x ∧ x <= 1 ∧ 0 <= y ∧ y <= 1)%Q.
Proof.
  assert (∀ i k : nat, i < k →
            (0 <= float32_div (float32_of_int (Z.of_nat i)) (float32_of_int (Z.of_nat k))
             ∧ float32_div (float32_of_int (Z.of_nat i)) (float32_of_int (Z.of_nat k))
               <= 1)%Q) as Hunit.
  { intros i k Hik. apply float32_div_unit.
    - apply float32_of_int_mono. lia.
    - pose proof (float32_of_int_mono 1%Z (Z.of_nat k) ltac:(lia)) as [_ Hk].
      change (float32_of_int 1%Z) with 1%Z in Hk. lia. }
  rewrite grid_locs_rows. intros (i & Hxy & Hi%elem_of_seq)%list_elem_of_bind.
  apply list_elem_of_fmap in Hxy as (j & [= -> ->] & Hj%elem_of_seq).
  destruct (Hunit i m) as [? ?]; [lia|].
  destruct (Hunit j n) as [? ?]; [lia|]. done.
Qed.

(** X12: the locations of a generated instance are those of the grid in
    row-major order: cell [i * size + j] lies at the float32 quotients
    [(i / size, j / size)]; the indices are converted exactly when the
    size is below [2 ^ 24], and the quotients are rounded: a third is the
    float32 11184811 / 33554432. *)
Theorem generated_locs_row_major (self : MDPPEnv) (batch_size : BatchSize)
    (rng : nat → Draws) :
  valid_config self →
  (∀ i, i < batch_length batch_size → valid_draws (num_cells self) (rng i)) →
  ∃ out,
    generate_data self batch_size rng = Ok out
    ∧ ∀ td i j, td ∈ instances out →
        i < size (super self) → j < size (super self) →
        locs td !! (i * size (super self) + j)
        = Some (float32_div (float32_of_int (Z.of_nat i))
                  (float32_of_int (Z.of_nat (size (super self)))),
                float32_div (float32_of_int (Z.of_nat j))
                  (float32_of_int (Z.of_nat (size (super self)))))
        ∧ ((Z.of_nat (size (super self)) < 2 ^ 24)%Z →
           float32_of_int (Z.of_nat i) = Z.of_nat i
           ∧ float32_of_int (Z.of_nat j) = Z.of_nat j
           ∧ float32_of_int (Z.of_nat (size (super self)))
             = Z.of_nat (size (super self))).
Proof.
  intros Hconf Hdraws.
  destruct (generated_instances self batch_size rng Hconf Hdraws)
    as (out & Hout & Hlen & Hinst).
  exists out. split; [done|].
  intros td i j [k [Hk ->]%Hinst]%list_elem_of_lookup_1 Hi Hj. split.
  - cbn [instance_of locs]. by apply grid_locs_lookup.
  - intros Hsmall. repeat split; apply float32_of_int_small; lia.
Qed.

Lemma generated_locs_row_major_witness :
  ∃ out,
    generate_data (example_env "minmax") BShape0 (fun _ => example_draws) = Ok out
    ∧ ∀ td, td ∈ instances out →
        locs td !! (1 * 3 + 2) = Some (11184811 # 33554432, 11184811 # 16777216)%Q.
Proof.
  destruct (generated_locs_row_major (example_env "minmax") BShape0
              (fun _ => example_draws)) as (out & Hout & H).
  - unfold valid_config. simpl. lia.
  - intros i _. split; unfold is_randperm; reflexivity.
  - exists out. split; [exact Hout|]. intros td Htd.
    destruct (H td 1 2 Htd) as [Hloc _]; [simpl; lia | simpl; lia |].
    exact Hloc.
Defined.

(** X13: a generated instance has the shapes that [_make_spec] declares
    for its fields, and its locations lie within the declared bounds when
    these include the unit interval. *)
Theorem generated_instance_in_spec (self : MDPPEnv) (batch_size : BatchSize)
    (rng : nat → Draws) (min_loc max_loc : Q) :
  valid_config self →
  (∀ i, i < batch_length batch_size → valid_draws (num_cells self) (rng i)) →
  (min_loc <= 0)%Q → (1 <= max_loc)%Q →
  ∃ out,
    generate_data self batch_size rng = Ok out
    ∧ ∀ td, td ∈ instances out →
        let spec := observation_spec (_make_spec self min_loc max_loc) in
        spec_shape (spec_locs spec) = [length (locs td); 2]
        ∧ spec_shape (spec_probe spec) = [length (probe td)]
        ∧ spec_shape (spec_action_mask spec) = [length (action_mask td)]
        ∧ ∀ x y, (x, y) ∈ locs td →
            ∃ lo hi, spec_bounds (spec_locs spec) = Some (lo, hi)
                     ∧ (lo <= x ∧ x <= hi ∧ lo <= y ∧ y <= hi)%Q.
Proof.
  intros Hconf Hdraws Hmin Hmax.
  destruct (generated_instances self batch_size rng Hconf Hdraws)
    as (out & Hout & Hlen & Hinst).
  exists out. split; [done|].
  intros td [k [Hk ->]%Hinst]%list_elem_of_lookup_1.
  destruct (instance_lengths self (rng k)) as [Hlm Hlp].
  cbn zeta. cbn [_make_spec observation_spec spec_locs spec_probe spec_action_mask
                 spec_shape spec_bounds].
  rewrite Hlm, Hlp. cbn [instance_of locs]. rewrite grid_locs_length.
  unfold num_cells. rewrite Nat.pow_2_r. repeat split.
  intros x y (Hx0 & Hx1 & Hy0 & Hy1)%grid_locs_elem.
  exists min_loc, max_loc. split; [done|].
  repeat split; eauto using Qle_trans.
Qed.

Lemma generated_instance_in_spec_witness :
  ∃ out,
    generate_data (example_env "minmax") (BInt 2) (fun _ => example_draws) = Ok out
    ∧ ∀ td, td ∈ instances out →
        [length (locs td); 2] = [9; 2] ∧ [length (probe td)] = [9].
Proof.
  destruct (generated_instance_in_spec (example_env "minmax") (BInt 2)
              (fun _ => example_draws) 0%Q 1%Q) as (out & Hout & H).
  - unfold valid_config. simpl. lia.
  - intros i _. split; unfold is_randperm; reflexivity.
  - discriminate.
  - discriminate.
  - exists out. split; [exact Hout|]. intros td Htd.
    destruct (H td Htd) as (Hl & Hp & _). split; [rewrite <- Hl | rewrite <- Hp];
      reflexivity.
Defined.

(** ** Reset, again *)

Lemma zip_with_orb_absorb (a b : list bool) :
  zip_with orb (zip_with orb a b) b = zip_with orb a b.
Proof.
  revert b. induction a as [|x a IH]; intros [|y b]; simpl; [done..|].
  f_equal; [by destruct x, y | apply IH].
Qed.

Lemma logical_or_idempotent (a b m : list bool) :
  logical_or a b = Ok m → logical_or m b = Ok m.
Proof.
  unfold logical_or. destruct (decide (length a = length b)) as [Hlen|Hlen].
  - intros [= <-]. rewrite decide_True by (rewrite length_zip_with; lia).
    by rewrite zip_with_orb_absorb.
  - destruct a as [|x [|x' a]].
    + destruct b as [|y [|y' b]]; [done | | done].
      by intros [= <-].
    + intros [= <-]. rewrite decide_True by (by rewrite length_fmap).
      f_equal. clear Hlen. induction b as [|y b IH]; [done|].
      simpl in *. f_equal; [by destruct x, y | done].
    + destruct b as [|y [|y' b]]; [done | | done].
      intros [= <-]. simpl. rewrite <- !orb_assoc, !orb_diag. do 3 f_equal.
      rewrite <- list_fmap_compose. apply list_fmap_ext.
      intros i z _. simpl. by rewrite <- orb_assoc, orb_diag.
Qed.

Lemma reset_mask_idempotent (td td' : Instance) :
  reset_mask td = Ok td' → reset_mask td' = Ok td'.
Proof.
  unfold reset_mask.
  intros (m & Hm & [= <-])%bind_Ok. cbn [action_mask probe locs].
  by rewrite (logical_or_idempotent _ _ _ Hm).
Qed.

(** X14: a reset of a state that a reset has returned changes nothing:
    handed its own result by the parent, [_reset] returns it as it is. *)
Theorem reset_idempotent (super_reset : option TensorDict → result TensorDict)
    (td td' : option TensorDict) (out : TensorDict) :
  _reset super_reset td = Ok out → _reset (fun _ => Ok out) td' = Ok out.
Proof.
  unfold _reset. intros (out0 & _ & Hout)%bind_Ok. cbn [mbind result_bind].
  destruct out0 as [x|xs].
  - apply bind_Ok in Hout as (x' & Hx & [= <-]).
    by rewrite (reset_mask_idempotent _ _ Hx).
  - apply bind_Ok in Hout as (xs' & Hxs & [= <-]).
    assert (for_each reset_mask xs' = Ok xs') as ->; [|done].
    apply for_each_Forall2 in Hxs. apply for_each_Forall2.
    induction Hxs as [|x x' xs xs' Hx _ IH]; constructor; [|done].
    by eapply reset_mask_idempotent.
Qed.

Lemma reset_idempotent_witness :
  ∃ out,
    _reset (fun _ => Ok (Batch [example_instance; one_probe_instance])) None = Ok out
    ∧ _reset (fun _ => Ok out) None = Ok out.
Proof.
  eexists. split; [reflexivity|].
  apply (reset_idempotent (fun _ => Ok (Batch [example_instance; one_probe_instance]))
           None None).
  reflexivity.
Defined.

(** X15: the reset keeps the batch shape, the locations and the probe mask
    of the state that the parent hands on, and never takes a cell out of
    the mask: a cell that was selectable stays selectable. *)
Theorem reset_keeps_state (super_reset : option TensorDict → result TensorDict)
    (td : option TensorDict) (out' : TensorDict) :
  _reset super_reset td = Ok out' →
  ∃ out,
    super_reset td = Ok out
    ∧ match out, out' with
      | Single _, Single _ | Batch _, Batch _ => True
      | _, _ => False
      end
    ∧ Forall2 (fun x x' =>
                 locs x' = locs x ∧ probe x' = probe x
                 ∧ (length (action_mask x) = length (probe x) →
                    length (action_mask x') = length (action_mask x)
                    ∧ ∀ c, action_mask x !! c = Some true →
                           action_mask x' !! c = Some true))
        (instances out) (instances out').
Proof.
  assert (∀ x x', reset_mask x = Ok x' →
            locs x' = locs x ∧ probe x' = probe x
            ∧ (length (action_mask x) = length (probe x) →
               length (action_mask x') = length (action_mask x)
               ∧ ∀ c, action_mask x !! c = Some true →
                      action_mask x' !! c = Some true)) as Hone.
  { intros x x' Hx. pose proof Hx as Hx'. unfold reset_mask in Hx.
    apply bind_Ok in Hx as (m & Hm & [= <-]). cbn [locs probe action_mask].
    split; [done|]. split; [done|]. intros Hlen.
    unfold logical_or in Hm. rewrite decide_True in Hm by done.
    injection Hm as <-. split; [rewrite length_zip_with; lia|].
    intros c Hc. rewrite lookup_zip_with, Hc. simpl.
    destruct (lookup_lt_is_Some_2 (probe x) c) as [y ->]; [|done].
    rewrite <- Hlen. by eapply lookup_lt_Some. }
  unfold _reset. intros (out & Hsuper & Hout)%bind_Ok. exists out.
  split; [done|]. destruct out as [x|xs].
  - apply bind_Ok in Hout as (x' & Hx & [= <-]). split; [done|].
    constructor; [by apply Hone | constructor].
  - apply bind_Ok in Hout as (xs' & Hxs & [= <-]). split; [done|].
    apply for_each_Forall2 in Hxs. cbn [instances].
    eapply Forall2_impl; [exact Hxs|]. apply Hone.
Qed.

Lemma reset_keeps_state_witness :
  ∃ out out',
    _reset (fun _ => Ok (Single example_instance)) None = Ok out'
    ∧ Forall2 (fun x x' => probe x' = probe x) (instances out) (instances out').
Proof.
  destruct (reset_keeps_state (fun _ => Ok (Single example_instance)) None
              (Single (mkInstance (locs example_instance) (probe example_instance)
                         [true; true; true; true; true; true; true; true; false])))
    as (out & _ & _ & H).
  - reflexivity.
  - exists out, (Single (mkInstance (locs example_instance) (probe example_instance)
                          [true; true; true; true; true; true; true; true; false])).
    split; [reflexivity|].
    eapply Forall2_impl; [exact H|]. intros x x' (_ & Hp & _). exact Hp.
Defined.

Lemma reset_returns_from (super_reset : option TensorDict → result TensorDict)
    (td : option TensorDict) (out : TensorDict) :
  super_reset td = Ok out →
  Forall (fun x => length (action_mask x) = length (probe x)) (instances out) →
  ∃ out', _reset super_reset td = Ok out'
          ∧ instances out'
            = (fun x => mkInstance (locs x) (probe x)
                          (zip_with orb (action_mask x) (probe x)))
                <$> instances out.
Proof.
  intros Hsuper Hlen. unfold _reset. rewrite Hsuper. cbn [mbind result_bind].
  destruct out as [x|xs]; cbn [instances] in *.
  - apply Forall_cons in Hlen as [Hlen _]. rewrite (reset_mask_returns x Hlen).
    eexists. split; [reflexivity | done].
  - pose proof (for_each_fmap reset_mask id
      (fun x => mkInstance (locs x) (probe x)
                  (zip_with orb (action_mask x) (probe x))) xs) as Hxs.
    rewrite list_fmap_id in Hxs. rewrite Hxs.
    + eexists. split; [reflexivity | done].
    + intros x Hx. apply reset_mask_returns.
      rewrite Forall_forall in Hlen. by apply Hlen.
Qed.

(** X16: when the parent hands on the generated state, a cell is
    selectable after the reset exactly when it is a probe cell, or is
    neither the designated cell nor a keepout. *)
Theorem reset_of_generated_mask (self : MDPPEnv) (batch_size : BatchSize)
    (rng : nat → Draws) (super_reset : option TensorDict → result TensorDict)
    (td : option TensorDict) :
  valid_config self →
  (∀ i, i < batch_length batch_size → valid_draws (num_cells self) (rng i)) →
  super_reset td = generate_data self batch_size rng →
  ∃ out',
    _reset super_reset td = Ok out'
    ∧ length (instances out') = batch_length batch_size
    ∧ ∀ i td' c, instances out' !! i = Some td' → c < num_cells self →
        action_mask td' !! c
        = Some (bool_decide
                  ((Z.of_nat c ∈ probe_cells self (rng i))
                   ∨ ((Z.of_nat c ≠ designated_probe self (rng i))
                      ∧ (Z.of_nat c ∉ keepout_cells self (rng i))))).
Proof.
  intros Hconf Hdraws Hsuper.
  destruct (generated_instances self batch_size rng Hconf Hdraws)
    as (out & Hout & Hlen & Hinst).
  destruct Hconf as (Hsize & _).
  destruct (reset_returns_from super_reset td out) as (out' & Hout' & Hinst').
  { by rewrite Hsuper. }
  { apply Forall_forall. intros x [i Hx]%list_elem_of_lookup_1.
    apply Hinst in Hx as [_ ->].
    by destruct (instance_lengths self (rng i)) as [-> ->]. }
  exists out'. split; [done|]. split; [by rewrite Hinst', length_fmap|].
  intros i td' c Htd' Hc. rewrite Hinst', list_lookup_fmap in Htd'.
  destruct (instances out !! i) as [x|] eqn:Hx; [|done].
  apply Hinst in Hx as [Hi ->]. apply (inj Some) in Htd' as <-.
  change (action_mask (mkInstance ?l ?p ?m)) with m.
  rewrite lookup_zip_with, instance_action_mask_lookup, instance_probe_lookup
    by auto.
  simpl. f_equal. repeat case_bool_decide; simpl; try done; tauto.
Qed.

Lemma reset_of_generated_mask_witness :
  ∃ out',
    _reset (fun _ => generate_data keepout_env BShape0 (fun _ => example_draws)) None
    = Ok out'
    ∧ ∀ td', instances out' !! 0 = Some td' → action_mask td' !! 0 = Some true.
Proof.
  destruct (reset_of_generated_mask keepout_env BShape0 (fun _ => example_draws)
              (fun _ => generate_data keepout_env BShape0 (fun _ => example_draws))
              None) as (out' & Hout' & _ & H).
  - unfold valid_config. simpl. lia.
  - intros i _. split; unfold is_randperm; reflexivity.
  - reflexivity.
  - exists out'. split; [exact Hout'|]. intros td' Htd'.
    rewrite (H 0 td' 0 Htd'); [reflexivity | unfold num_cells; simpl; lia].
Defined.

(** ** Rendering *)

Lemma count_of_cons (k y : nat) (l : list nat) :
  count_of k (y :: l) = (if decide (y = k) then 1 else 0) + count_of k l.
Proof.
  unfold count_of. case_decide.
  - by rewrite filter_cons_True.
  - by rewrite filter_cons_False.
Qed.

Lemma count_of_app (k : nat) (l1 l2 : list nat) :
  count_of k (l1 ++ l2) = count_of k l1 + count_of k l2.
Proof. unfold count_of. by rewrite filter_app, length_app. Qed.

Lemma count_of_elem (k : nat) (l : list nat) : 0 < count_of k l ↔ k ∈ l.
Proof.
  induction l as [|y l IH]; [unfold count_of; simpl; rewrite elem_of_nil; lia|].
  rewrite count_of_cons, elem_of_cons, <- IH. case_decide; lia.
Qed.

Lemma count_of_NoDup (k : nat) (l : list nat) :
  NoDup l → count_of k l = if bool_decide (k ∈ l) then 1 else 0.
Proof.
  induction 1 as [|y l Hy Hnd IH]; [done|].
  rewrite count_of_cons, IH. destruct (decide (y = k)) as [->|Hk].
  - rewrite (bool_decide_eq_false_2 _ Hy).
    rewrite bool_decide_eq_true_2; [done|]. apply elem_of_cons. by left.
  - apply (f_equal (fun b : bool => if b then 1 else 0)).
    apply bool_decide_ext. rewrite elem_of_cons. intuition congruence.
Qed.

(** The cells that the mask blocks, once each. *)
Lemma count_of_nonzero (k c : nat) (mask : list bool) :
  count_of k (Z.to_nat <$> nonzero_from (Z.of_nat c) mask)
  = if bool_decide (c ≤ k ∧ mask !! (k - c) = Some true) then 1 else 0.
Proof.
  revert c. induction mask as [|b mask IH]; intros c.
  - rewrite bool_decide_eq_false_2; [done|]. by intros [_ ?].
  - cbn [nonzero_from]. replace (Z.of_nat c + 1)%Z with (Z.of_nat (S c)) by lia.
    assert (count_of k (Z.to_nat <$> nonzero_from (Z.of_nat (S c)) mask)
            = if bool_decide (c < k ∧ (b :: mask) !! (k - c) = Some true)
              then 1 else 0) as Hrest.
    { rewrite IH. apply (f_equal (fun b : bool => if b then 1 else 0)).
      apply bool_decide_ext. split.
      - intros [Hk Hm]. split; [lia|].
        by replace (k - c) with (S (k - S c)) by lia.
      - intros [Hk Hm]. split; [lia|].
        by replace (k - c) with (S (k - S c)) in Hm by lia. }
    destruct b; cbn [fmap list_fmap]; rewrite ?count_of_cons, ?Nat2Z.id, Hrest.
    + destruct (decide (c = k)) as [->|Hne].
      * rewrite Nat.sub_diag. simpl.
        rewrite bool_decide_eq_false_2 by lia.
        by rewrite bool_decide_eq_true_2.
      * simpl. apply (f_equal (fun b : bool => if b then 1 else 0)).
        apply bool_decide_ext. split; intros [? ?]; (split; [lia | done]).
    + apply (f_equal (fun b : bool => if b then 1 else 0)).
      apply bool_decide_ext. split; intros [Hk Hm]; (split; [|done]); [lia|].
      destruct (decide (c = k)) as [->|]; [|lia].
      rewrite Nat.sub_diag in Hm. done.
Qed.

Lemma count_of_blocked (k : nat) (action_mask : list bool) :
  count_of k (Z.to_nat <$> nonzero (negb <$> action_mask))
  = if bool_decide (action_mask !! k = Some false) then 1 else 0.
Proof.
  unfold nonzero. rewrite (count_of_nonzero k 0).
  apply (f_equal (fun b : bool => if b then 1 else 0)).
  apply bool_decide_ext. rewrite Nat.sub_0_r, list_lookup_fmap.
  destruct (action_mask !! k) as [[]|]; simpl; split; intros; try done;
    try (split; [lia | done]); by destruct H.
Qed.

Lemma occurring_once_elem (l : list nat) (k : nat) :
  k ∈ occurring_once l ↔ count_of k l = 1.
Proof.
  unfold occurring_once, unique. rewrite list_elem_of_fmap. split.
  - intros ([x n] & -> & [Hn (y & [= -> ->] & _)%list_elem_of_fmap]%list_elem_of_filter).
    done.
  - intros Hk. exists (k, count_of k l). split; [done|].
    apply list_elem_of_filter. split; [done|].
    apply list_elem_of_fmap. exists k. split; [done|].
    assert (k ∈ l) as Hin by (apply count_of_elem; lia).
    apply list_elem_of_filter. split; [done|].
    apply elem_of_seq. pose proof (max_list_elem_of_le k l Hin). lia.
Qed.

Lemma cell_div_mod (size k r c : nat) :
  c < size → (k `div` size = r ∧ k `mod` size = c) ↔ k = r * size + c.
Proof.
  intros Hc. split.
  - intros [<- <-]. pose proof (Nat.div_mod_eq k size). lia.
  - intros ->. split.
    + symmetry. apply (Nat.div_unique _ _ _ c); lia.
    + symmetry. apply (Nat.mod_unique _ _ r); lia.
Qed.

(** A cell of the grid after an assignment. *)
Lemma grid_fold_lookup (size : nat) (v : Category) (cells : list nat)
    (g : list (list Category)) (r c : nat) :
  c < size →
  foldl (fun g k => alter (fun row => <[k `mod` size := v]> row) (k `div` size) g)
    g cells !! r ≫= (fun row => row !! c)
  = if bool_decide (r * size + c ∈ cells)
    then (fun _ => v) <$> (g !! r ≫= fun row => row !! c)
    else g !! r ≫= fun row => row !! c.
Proof.
  intros Hc. revert g. induction cells as [|k cells IH]; intros g; cbn [foldl].
  - rewrite bool_decide_eq_false_2; [done|]. apply not_elem_of_nil.
  - rewrite IH. clear IH.
    destruct (decide (k = r * size + c)) as [Hk|Hk].
    + apply (cell_div_mod size k r c Hc) in Hk as Hdm. destruct Hdm as [Hd Hm].
      rewrite Hd, Hm, list_lookup_alter_eq.
      rewrite (bool_decide_eq_true_2 (_ ∈ _ :: _)) by (apply elem_of_cons; by left).
      destruct (g !! r) as [row|]; simpl; [|by case_bool_decide].
      rewrite list_lookup_insert.
      destruct (decide (c = c ∧ c < length row)) as [[_ Hlt]|Hge].
      * destruct (lookup_lt_is_Some_2 row c Hlt) as [x ->]. by case_bool_decide.
      * rewrite (lookup_ge_None_2 row c) by lia. by case_bool_decide.
    + assert (alter (fun row => <[k `mod` size := v]> row) (k `div` size) g !! r
              ≫= (fun row => row !! c) = g !! r ≫= fun row => row !! c) as ->.
      { destruct (decide (k `div` size = r)) as [Hd|Hd].
        - rewrite Hd, list_lookup_alter_eq. destruct (g !! r) as [row|]; [|done].
          simpl. apply list_lookup_insert_ne. intros Hm. apply Hk.
          by apply (cell_div_mod size k r c Hc).
        - by rewrite list_lookup_alter_ne. }
      apply (f_equal (fun b : bool => if b then _ else _)).
      apply bool_decide_ext. rewrite elem_of_cons. intuition congruence.
Qed.

Lemma grid_set_returns (size : nat) (g : list (list Category)) (cells : list nat)
    (v : Category) :
  0 < size → Forall (fun k => k < size * size) cells →
  grid_set size g cells v
  = Ok (foldl (fun g k => alter (fun row => <[k `mod` size := v]> row)
                            (k `div` size) g) g cells).
Proof.
  intros Hsize Hin. unfold grid_set. rewrite decide_False by lia.
  assert (forallb (fun k => bool_decide (k `div` size < size)) cells = true) as ->;
    [|done].
  induction Hin as [|k cells Hk _ IH]; cbn [forallb]; [done|].
  rewrite IH, bool_decide_eq_true_2; [done|].
  apply Nat.Div0.div_lt_upper_bound. lia.
Qed.

(** With a grid that is not empty, an assignment either returns, all its
    cells being on the grid, or raises IndexError. *)
Lemma grid_set_cases (size : nat) (g : list (list Category)) (cells : list nat)
    (v : Category) :
  0 < size →
  (Forall (fun k => k < size * size) cells ∧ returns (grid_set size g cells v))
  ∨ grid_set size g cells v = Raise IndexError.
Proof.
  intros Hsize.
  destruct (decide (Forall (fun k => k < size * size) cells)) as [Hin|Hout].
  - left. split; [done|]. rewrite grid_set_returns by done. by eexists.
  - right. unfold grid_set. rewrite decide_False by lia.
    destruct (forallb _ cells) eqn:Hall; [|done].
    exfalso. apply Hout. apply Forall_forall. intros k Hk%list_elem_of_In.
    rewrite forallb_forall in Hall. specialize (Hall k Hk).
    apply bool_decide_eq_true_1 in Hall.
    destruct (decide (k < size * size)) as [|Hge]; [done|].
    assert (size ≤ k `div` size); [|lia].
    apply Nat.div_le_lower_bound; lia.
Qed.

Lemma keepout_in_range (decaps probe : list nat) (action_mask : list bool)
    (N : nat) :
  Forall (fun k => k < N) probe → Forall (fun k => k < N) decaps →
  length action_mask ≤ N →
  Forall (fun k => k < N)
    (occurring_once
       ((Z.to_nat <$> nonzero (negb <$> action_mask)) ++ probe ++ decaps)).
Proof.
  rewrite !Forall_forall. intros Hp Hd Hm k Hk%occurring_once_elem.
  assert (k ∈ (Z.to_nat <$> nonzero (negb <$> action_mask)) ++ probe ++ decaps)
    as Hin by (apply count_of_elem; lia).
  rewrite !elem_of_app in Hin. destruct Hin as [Hb|[?|?]]; [|auto..].
  apply count_of_elem in Hb. rewrite count_of_blocked in Hb.
  case_bool_decide as Hb'; [|lia]. apply lookup_lt_Some in Hb'. lia.
Qed.

Lemma count_of_cat (decaps probe : list nat) (action_mask : list bool) (k : nat) :
  count_of k ((Z.to_nat <$> nonzero (negb <$> action_mask)) ++ probe ++ decaps)
  = (if bool_decide (action_mask !! k = Some false) then 1 else 0)
    + count_of k probe + count_of k decaps.
Proof. rewrite !count_of_app, count_of_blocked. lia. Qed.

Lemma squeeze_last_cells (decaps : DecapsTensor) :
  squeeze_last decaps ≠ None → squeeze_last decaps = Some (decap_cells decaps).
Proof. by destruct decaps as [[|x [|y l]]|l]. Qed.

Lemma render_keepout_returns (decaps : DecapsTensor) (probe : list nat)
    (action_mask : list bool) :
  squeeze_last decaps ≠ None →
  render_keepout decaps probe action_mask
  = Ok (occurring_once
          ((Z.to_nat <$> nonzero (negb <$> action_mask)) ++ probe
           ++ decap_cells decaps)).
Proof. intros Hd. unfold render_keepout. by rewrite squeeze_last_cells. Qed.

(** The cells of the grid after the three assignments. *)
Lemma render_grid_cells (self : MDPPEnv) (decaps : DecapsTensor) (probe : list nat)
    (action_mask : list bool) :
  squeeze_last decaps ≠ None →
  0 < size (super self) →
  Forall (fun k => k < num_cells self) probe →
  Forall (fun k => k < num_cells self) (decap_cells decaps) →
  length action_mask ≤ num_cells self →
  ∃ grid,
    render_grid self decaps probe action_mask = Ok grid
    ∧ ∀ r c, r < size (super self) → c < size (super self) →
        grid !! r ≫= (fun row => row !! c)
        = Some (final_category (decap_cells decaps) probe action_mask
                  (r * size (super self) + c)).
Proof.
  intros Hshape Hsize Hp Hd Hm. unfold render_grid, num_cells in *. cbv zeta.
  pose proof (keepout_in_range (decap_cells decaps) probe action_mask _ Hp Hd Hm)
    as Hk.
  rewrite render_keepout_returns by done. cbn [mbind result_bind].
  rewrite (grid_set_returns _ _ (occurring_once _)) by done.
  cbn [mbind result_bind]. rewrite (grid_set_returns _ _ probe) by done.
  cbn [mbind result_bind]. rewrite (grid_set_returns _ _ (decap_cells _)) by done.
  eexists. split; [reflexivity|]. intros r c Hr Hc.
  rewrite !grid_fold_lookup by done.
  rewrite lookup_replicate_2 by done. simpl. rewrite lookup_replicate_2 by done.
  unfold final_category. set (k := r * size (super self) + c).
  destruct (bool_decide (k ∈ decap_cells decaps)) eqn:Hkd;
    [by repeat case_bool_decide|].
  destruct (bool_decide (k ∈ probe)) eqn:Hkp; [by repeat case_bool_decide|].
  apply bool_decide_eq_false_1 in Hkd, Hkp.
  assert (count_of k probe = 0) as Hcp.
  { pose proof (count_of_elem k probe). destruct (count_of k probe); [done|].
    exfalso. apply Hkp. apply H. lia. }
  assert (count_of k (decap_cells decaps) = 0) as Hcd.
  { pose proof (count_of_elem k (decap_cells decaps)).
    destruct (count_of k (decap_cells decaps)); [done|].
    exfalso. apply Hkd. apply H. lia. }
  match goal with
  | |- context [bool_decide (k ∈ occurring_once ?l)] =>
      assert (bool_decide (k ∈ occurring_once l)
              = bool_decide (action_mask !! k = Some false)) as ->
  end.
  { apply bool_decide_ext. rewrite occurring_once_elem, count_of_cat, Hcp, Hcd.
    case_bool_decide; split; intros; try done; lia. }
  by case_bool_decide.
Qed.

(** X17: when the probes, the decaps and the mask fit the grid, and
    [decaps] is not a tensor of shape (1,), every cell ends with one
    category, by precedence: a decap cell is drawn as decap, else a probe
    cell as probe, else a cell that the mask blocks as keepout, else as
    available; which cells occur once or more than once among the three
    does not show. *)
Theorem render_grid_categories (self : MDPPEnv) (decaps : DecapsTensor)
    (probe : list nat) (action_mask : list bool) :
  squeeze_last decaps ≠ None →
  0 < size (super self) →
  Forall (fun k => k < num_cells self) probe →
  Forall (fun k => k < num_cells self) (decap_cells decaps) →
  length action_mask ≤ num_cells self →
  ∃ grid,
    render_grid self decaps probe action_mask = Ok grid
    ∧ ∀ k, k < num_cells self →
        grid !! (k `div` size (super self))
          ≫= (fun row => row !! (k `mod` size (super self)))
        = Some (final_category (decap_cells decaps) probe action_mask k).
Proof.
  intros Hshape Hsize Hp Hd Hm.
  destruct (render_grid_cells self decaps probe action_mask Hshape Hsize Hp Hd Hm)
    as (grid & Hgrid & Hcat).
  exists grid. split; [done|]. intros k Hk. unfold num_cells in Hk.
  rewrite Hcat.
  - do 2 f_equal. pose proof (Nat.div_mod_eq k (size (super self))). lia.
  - apply Nat.Div0.div_lt_upper_bound. lia.
  - apply Nat.mod_upper_bound. lia.
Qed.

Lemma render_grid_categories_witness :
  ∃ grid,
    render_grid (example_env "minmax") (Decaps2 [4; 5]) [0; 1]
      (action_mask example_instance) = Ok grid
    ∧ grid !! 1 ≫= (fun row => row !! 1) = Some Decap.
Proof.
  destruct (render_grid_categories (example_env "minmax") (Decaps2 [4; 5]) [0; 1]
              (action_mask example_instance)) as (grid & Hgrid & H).
  - discriminate.
  - simpl. lia.
  - repeat constructor.
  - repeat constructor.
  - reflexivity.
  - exists grid. split; [exact Hgrid|].
    apply (H 4). unfold num_cells. simpl. lia.
Defined.

(** X18: when [decaps] is not a tensor of shape (1,), a cell beyond the
    grid, be it a probe, a decap or a cell that the mask blocks, makes the
    rendering raise IndexError. *)
Theorem render_off_grid_raises (self : MDPPEnv) (decaps : DecapsTensor)
    (probe : list nat) (action_mask : list bool) (k : nat) :
  squeeze_last decaps ≠ None →
  0 < size (super self) →
  num_cells self ≤ k →
  k ∈ probe ∨ k ∈ decap_cells decaps ∨ action_mask !! k = Some false →
  render_grid self decaps probe action_mask = Raise IndexError
  ∧ render self decaps probe action_mask = Raise IndexError.
Proof.
  intros Hshape Hsize Hk Hin.
  assert (render_grid self decaps probe action_mask = Raise IndexError) as Hgrid.
  { unfold render_grid, num_cells in *. cbv zeta.
    rewrite render_keepout_returns by done. cbn [mbind result_bind].
    set (keepout := occurring_once _).
    set (g0 := replicate (size (super self)) (replicate (size (super self)) Available)).
    destruct (grid_set_cases (size (super self)) g0 keepout Keepout Hsize)
      as [[Hin1 [g1 ->]]| ->]; [|done].
    cbn [mbind result_bind].
    destruct (grid_set_cases (size (super self)) g1 probe Probe Hsize)
      as [[Hin2 [g2 ->]]| ->]; [|done].
    cbn [mbind result_bind].
    destruct (grid_set_cases (size (super self)) g2 (decap_cells decaps) Decap Hsize)
      as [[Hin3 _]| ->]; [|done].
    exfalso. rewrite Forall_forall in Hin1, Hin2, Hin3.
    destruct Hin as [Hp|[Hd|Hb]].
    - specialize (Hin2 k Hp). lia.
    - specialize (Hin3 k Hd). lia.
    - destruct (decide (k ∈ probe)) as [Hp|Hp]; [specialize (Hin2 k Hp); lia|].
      destruct (decide (k ∈ decap_cells decaps)) as [Hd|Hd];
        [specialize (Hin3 k Hd); lia|].
      assert (k ∈ keepout) as Hkk.
      { apply occurring_once_elem. rewrite count_of_cat.
        rewrite bool_decide_eq_true_2 by done.
        pose proof (count_of_elem k probe).
        pose proof (count_of_elem k (decap_cells decaps)).
        destruct (count_of k probe); [|exfalso; apply Hp; apply H; lia].
        destruct (count_of k (decap_cells decaps));
          [done|exfalso; apply Hd; apply H0; lia]. }
      specialize (Hin1 k Hkk). lia. }
  split; [done|]. unfold render. by rewrite Hgrid.
Qed.

Lemma render_off_grid_raises_witness :
  render (example_env "minmax") (Decaps2 [4]) [0; 9] (action_mask example_instance)
  = Raise IndexError.
Proof.
  destruct (render_off_grid_raises (example_env "minmax") (Decaps2 [4]) [0; 9]
              (action_mask example_instance) 9) as [_ H].
  - discriminate.
  - simpl. lia.
  - reflexivity.
  - left. apply elem_of_cons. right. apply elem_of_cons. left. reflexivity.
  - exact H.
Defined.

(** X19: when the inputs fit the grid and [decaps] is not a tensor of
    shape (1,), the rendering adds one rectangle per cell, row after row;
    the rectangle of cell [k] has its corner at [x = k mod size],
    [y = k div size], the second location coordinate running along x, and
    the color of the category that the cell ends with. *)
Theorem render_rectangles (self : MDPPEnv) (decaps : DecapsTensor)
    (probe : list nat) (action_mask : list bool) :
  squeeze_last decaps ≠ None →
  0 < size (super self) →
  Forall (fun k => k < num_cells self) probe →
  Forall (fun k => k < num_cells self) (decap_cells decaps) →
  length action_mask ≤ num_cells self →
  ∃ patches,
    render self decaps probe action_mask = Ok patches
    ∧ length patches = num_cells self
    ∧ ∀ k, k < num_cells self →
        patches !! k
        = Some (k `mod` size (super self), k `div` size (super self),
                (settings (final_category (decap_cells decaps) probe
                             action_mask k)).1).
Proof.
  intros Hshape Hsize Hp Hd Hm.
  destruct (render_grid_cells self decaps probe action_mask Hshape Hsize Hp Hd Hm)
    as (grid & Hgrid & Hcat).
  unfold render. rewrite Hgrid. cbn [mbind result_bind]. cbv zeta.
  eexists. split; [reflexivity|].
  set (n := size (super self)) in *.
  assert (∀ i, (seq 0 n ≫= fun j => [(j, i, (settings ((grid !!! i) !!! j)).1)])
               = (fun j => (j, i, (settings ((grid !!! i) !!! j)).1)) <$> seq 0 n)
    as Hrow by (intros i; apply bind_singleton_fmap).
  split.
  - rewrite (bind_rows_length _ _ n), length_seq; [done|].
    intros i _. by rewrite Hrow, length_fmap, length_seq.
  - intros k Hk. unfold num_cells in Hk. fold n in Hk.
    assert (k `mod` n < n) as Hc by (apply Nat.mod_upper_bound; lia).
    assert (k `div` n < n) as Hr by (apply Nat.Div0.div_lt_upper_bound; lia).
    assert (k = k `div` n * n + k `mod` n) as Hdm
      by (pose proof (Nat.div_mod_eq k n); lia).
    rewrite Hdm at 1.
    rewrite (bind_rows_lookup _ _ n (k `div` n) (k `mod` n) (k `div` n));
      [| | by apply lookup_seq | done].
    2: { intros i _. by rewrite Hrow, length_fmap, length_seq. }
    rewrite Hrow, list_lookup_fmap, (lookup_seq_lt _ _ _ Hc). simpl.
    specialize (Hcat _ _ Hr Hc). rewrite <- Hdm in Hcat.
    destruct (grid !! (k `div` n)) as [row|] eqn:Hrow'; [|done]. simpl in Hcat.
    rewrite (list_lookup_total_correct _ _ _ Hrow').
    by rewrite (list_lookup_total_correct _ _ _ Hcat).
Qed.

Lemma render_rectangles_witness :
  ∃ patches,
    render (example_env "minmax") (Decaps1 [4; 5]) [0; 1]
      (action_mask example_instance) = Ok patches
    ∧ patches !! 5 = Some (2, 1, "tab:blue").
Proof.
  destruct (render_rectangles (example_env "minmax") (Decaps1 [4; 5]) [0; 1]
              (action_mask example_instance)) as (patches & Hp & _ & H).
  - discriminate.
  - simpl. lia.
  - repeat constructor.
  - repeat constructor.
  - reflexivity.
  - exists patches. split; [exact Hp|]. rewrite (H 5); [reflexivity|].
    unfold num_cells. simpl. lia.
Defined.

(** X20: when [decaps] is not a tensor of shape (1,) and no cell is listed
    twice among the probes and the decaps, the tensor [keepout] is
    computed and holds the cells that are in exactly one of the three:
    blocked by the mask, probe, decap. A probe or a decap that the mask
    does not block is in it, a probe or a decap that the mask blocks is
    not. *)
Theorem render_keepout_exactly_one (decaps : DecapsTensor) (probe : list nat)
    (action_mask : list bool) :
  squeeze_last decaps ≠ None →
  NoDup (probe ++ decap_cells decaps) →
  ∃ keepout,
    render_keepout decaps probe action_mask = Ok keepout
    ∧ ∀ k, k ∈ keepout
        ↔ (action_mask !! k = Some false ∧ (k ∉ probe) ∧ (k ∉ decap_cells decaps))
          ∨ ((action_mask !! k ≠ Some false)
             ∧ (k ∈ probe ∨ k ∈ decap_cells decaps)).
Proof.
  intros Hshape Hnd. rewrite render_keepout_returns by done.
  eexists. split; [reflexivity|]. intros k. rewrite occurring_once_elem.
  rewrite count_of_app, count_of_blocked, (count_of_NoDup k _ Hnd).
  pose proof (elem_of_app probe (decap_cells decaps) k) as Happ.
  repeat case_bool_decide; split; intros; try lia; tauto.
Qed.

Lemma render_keepout_exactly_one_witness :
  ∃ keepout,
    render_keepout (Decaps2 [4; 5]) [0; 1] (action_mask example_instance) = Ok keepout
    ∧ 4 ∈ keepout ∧ 0 ∉ keepout.
Proof.
  destruct (render_keepout_exactly_one (Decaps2 [4; 5]) [0; 1]
              (action_mask example_instance)) as (keepout & Hk & H).
  - discriminate.
  - simpl. repeat (apply NoDup_cons; split;
                     [rewrite ?elem_of_cons, elem_of_nil; lia|]).
    apply NoDup_nil. done.
  - exists keepout. split; [exact Hk|]. split.
    + apply (H 4). right. split; [discriminate|]. right.
      apply elem_of_cons. left. reflexivity.
    + intros H0. apply (H 0) in H0 as [(_ & Hp & _)|[Hb _]].
      * apply Hp. apply elem_of_cons. left. reflexivity.
      * apply Hb. reflexivity.
Defined.

(** X21: a [decaps] tensor of shape (1,), one decap in one dimension, makes
    the rendering raise RuntimeError, whatever the cell, the probes and
    the mask: its squeeze has shape () and cannot be concatenated. The
    same decap in a tensor of shape (1, 1) is rendered. *)
Theorem render_single_decap_raises (self : MDPPEnv) (x : nat) (probe : list nat)
    (action_mask : list bool) :
  render_keepout (Decaps1 [x]) probe action_mask = Raise RuntimeError
  ∧ render self (Decaps1 [x]) probe action_mask = Raise RuntimeError
  ∧ returns (render_keepout (Decaps2 [x]) probe action_mask).
Proof. split; [done|]. split; [done|]. by eexists. Qed.
